(** * idr-formatting: formatIdr / parseIdr

    A shallow embedding of the string-based implementation of
    [formatIdr] and [parseIdr] (Indonesian number formatting: "." groups
    thousands, "," marks decimals), with the exact fixed-point value
    [FixedIdr], and the properties of the specification checked against it.

    JavaScript strings are sequences of UTF-16 code units; a code unit is
    modelled by its number in [N], a string by a list of code units.
    BigInt values of the program are all built from digit strings and by
    adding one, so they are modelled in [N]. *)

From Stdlib Require Import String Ascii.
From Stdlib Require Import List NArith ZArith Bool Lia.
Import ListNotations.

(** ** JavaScript string primitives used by the source *)

Module Js.

Definition char := N.
Definition text := list char.

(** A string literal of the development, as code units. *)
Definition str (s : string) : text :=
  map N_of_ascii (list_ascii_of_string s).

Definition c_minus : char := 45%N.
Definition c_comma : char := 44%N.
Definition c_dot : char := 46%N.
Definition c_zero : char := 48%N.

(** [\d] *)
Definition is_digit (c : char) : bool := ((48 <=? c) && (c <=? 57))%N.

(** [\s], and the characters removed by [trim]: WhiteSpace and
    LineTerminator of ECMAScript. *)
Definition white_space : list char :=
  [9; 10; 11; 12; 13; 32; 160; 5760;
   8192; 8193; 8194; 8195; 8196; 8197; 8198; 8199; 8200; 8201; 8202;
   8232; 8233; 8239; 8287; 12288; 65279]%N.

Definition is_space (c : char) : bool := existsb (N.eqb c) white_space.

Definition is_empty (s : text) : bool :=
  match s with [] => true | _ => false end.

(** [a || b] on strings: the empty string is falsy. *)
Definition or_else (a b : text) : text := if is_empty a then b else a.

Fixpoint trimStart (s : text) : text :=
  match s with
  | c :: r => if is_space c then trimStart r else s
  | [] => []
  end.

Definition trimEnd (s : text) : text := rev (trimStart (rev s)).

Definition trim (s : text) : text := trimEnd (trimStart s).

(** [s.startsWith(c)] for a one-character prefix. *)
Definition startsWith (c : char) (s : text) : bool :=
  match s with
  | c' :: _ => N.eqb c' c
  | [] => false
  end.

(** [s.includes(c)] for a one-character needle. *)
Definition includes (c : char) (s : text) : bool := existsb (N.eqb c) s.

(** [s.indexOf(c)]: [None] stands for -1. *)
Fixpoint indexOf (c : char) (s : text) : option nat :=
  match s with
  | [] => None
  | c' :: r => if N.eqb c' c then Some 0
               else option_map S (indexOf c r)
  end.

(** [s.slice(a, b)] for 0 <= a, 0 <= b. *)
Definition slice (a b : nat) (s : text) : text := firstn (b - a) (skipn a s).

(** [s.slice(a)] for 0 <= a. *)
Definition slice_from (a : nat) (s : text) : text := skipn a s.

(** [s.slice(-k)] for 0 < k. *)
Definition slice_last (k : nat) (s : text) : text :=
  skipn (length s - k) s.

Definition padEnd (k : nat) (c : char) (s : text) : text :=
  s ++ repeat c (k - length s).

Definition padStart (k : nat) (c : char) (s : text) : text :=
  repeat c (k - length s) ++ s.

(** [s.split(sep)] for a one-character separator. *)
Fixpoint split (sep : char) (s : text) : list text :=
  match s with
  | [] => [[]]
  | c :: r =>
      if N.eqb c sep then [] :: split sep r
      else match split sep r with
           | p :: ps => (c :: p) :: ps
           | [] => [[c]]
           end
  end.

(** [s.split(sep, limit)]: the pieces after the [limit]-th are dropped. *)
Definition split_limit (sep : char) (limit : nat) (s : text) : list text :=
  firstn limit (split sep s).

(** Array destructuring [const [a, b = ""] = pieces]. *)
Definition piece (k : nat) (pieces : list text) : text := nth k pieces [].

(** [s.replace(/[^0-9,]/g, "")] *)
Definition keep_digits_commas (s : text) : text :=
  filter (fun c => is_digit c || N.eqb c c_comma) s.

(** [s.replace(/[^0-9.,]/g, "")] *)
Definition keep_digits_dots_commas (s : text) : text :=
  filter (fun c => is_digit c || N.eqb c c_dot || N.eqb c c_comma) s.

(** [s.replace(/\D/g, "")], also written [/[^0-9]/g] *)
Definition keep_digits (s : text) : text := filter is_digit s.

(** [s.replace(/\./g, "")] *)
Definition remove_dots (s : text) : text :=
  filter (fun c => negb (N.eqb c c_dot)) s.

(** [s.replace(/,/g, "")] *)
Definition remove_commas (s : text) : text :=
  filter (fun c => negb (N.eqb c c_comma)) s.

(** [s.replace(/\s+/g, "")] *)
Definition remove_spaces (s : text) : text :=
  filter (fun c => negb (is_space c)) s.

(** [s.replace(",", ".")]: the first comma only. *)
Fixpoint replace_first_comma (s : text) : text :=
  match s with
  | [] => []
  | c :: r => if N.eqb c c_comma then c_dot :: r
              else c :: replace_first_comma r
  end.

(** [s.replace(/^0+(?!$)/, "")]: leading zeros go, the last character
    of the string stays. *)
Fixpoint strip_leading_zeros (s : text) : text :=
  match s with
  | c :: (_ :: _) as r => if N.eqb c c_zero then strip_leading_zeros r else s
  | _ => s
  end.

(** One or more groups [\.\d{3}], up to the end of the string. *)
Fixpoint dot_groups (s : text) : bool :=
  match s with
  | d :: a :: b :: c :: r =>
      N.eqb d c_dot && is_digit a && is_digit b && is_digit c
      && (is_empty r || dot_groups r)
  | _ => false
  end.

(** [\d{k}] followed by the groups, for the whole string. *)
Definition digits_then_groups (k : nat) (s : text) : bool :=
  Nat.eqb (length (firstn k s)) k
  && forallb is_digit (firstn k s)
  && dot_groups (skipn k s).

(** [/^\d{1,3}(\.\d{3})+$/.test(s)] *)
Definition thousandPattern (s : text) : bool :=
  digits_then_groups 3 s || digits_then_groups 2 s || digits_then_groups 1 s.

(** The value of a digit character, as unary plus gives it. *)
Definition digit_value (c : char) : N := (c - 48)%N.

Definition digit_char (d : N) : char := (48 + d)%N.

End Js.

Import Js.

(** ** BigInt on digit strings *)

Module BigInt.

(** [BigInt(s)] for a string of decimal digits ([BigInt("")] is [0n]).
    The source calls it on such strings only. *)
Definition of_digits (s : text) : N :=
  fold_left (fun acc c => (10 * acc + digit_value c)%N) s 0%N.

Fixpoint toString_fuel (fuel : nat) (n : N) : text :=
  match fuel with
  | O => []
  | S fuel' =>
      if (n <? 10)%N then [digit_char n]
      else toString_fuel fuel' (n / 10)%N ++ [digit_char (n mod 10)%N]
  end.

(** [n.toString()]: decimal digits, no leading zero, "0" for zero.
    A number has no more decimal digits than binary ones. *)
Definition toString (n : N) : text :=
  toString_fuel (S (N.to_nat (N.size n))) n.

End BigInt.

(** ** Data model *)

(** The sign [1 | -1] of a fixed-point value. *)
Inductive IdxSign := SignPlus | SignMinus.

(** [FixedIdr]: sign, all digits as one integer, count of decimal digits. *)

Record FixedIdr := mkFixed {
  sign : IdxSign;
  units : N;
  scale : nat
}.

(** The option [decimals]: "auto", or a number, taken to be an integer
    count (a negative one behaves as 0). *)
Inductive Decimals :=
| Auto
| Fixed (n : Z).

Record FormatIdrOptions := mkFormat {
  decimals : Decimals;
  padZeros : bool
}.

Definition default_format : FormatIdrOptions := mkFormat Auto false.

Inductive ParseMode := ModeNumber | ModeFixed.

(** The values [formatIdr] and [parseIdr] accept; [VNull] is null or
    undefined.  A number enters the string path through [String(value)],
    which is never empty; [VNum] carries that rendering. *)
Inductive Value :=
| VNull
| VStr (s : text)
| VNum (rendering : text)
| VFixed (fx : FixedIdr).

(** The result of [parseIdr].  [PNumber lit] stands for the double
    [Number(lit)]; the source answers null instead of it when that double
    is not finite, which is not decided here. *)
Inductive Parsed :=
| PNull
| PNumber (lit : text)
| PFixed (fx : FixedIdr).

(** ** Helpers of the source *)

(** The loop [for (let i = digits.length; i > 0; i -= 3)] of
    [groupThousandsStr], one unit of fuel for each turn; [digits.length]
    turns are enough, see [group_loop_grouped]. *)
Fixpoint group_loop (fuel : nat) (digits : text) (i : Z) (out : text) : text :=
  match fuel with
  | O => out
  | S fuel' =>
      if (0 <? i)%Z then
        let start := Z.max 0 (i - 3) in
        let chunk := slice (Z.to_nat start) (Z.to_nat i) digits in
        group_loop fuel' digits (i - 3)%Z
          (if is_empty out then chunk else chunk ++ c_dot :: out)
      else out
  end.

(** Integer digits with "." between groups of three, from the right. *)
Definition groupThousandsStr (digits : text) : text :=
  let digits := or_else (strip_leading_zeros digits) (str "0") in
  group_loop (length digits) digits (Z.of_nat (length digits)) [].

(** Rounding to [decimals] decimal digits; the result is the pair
    [{ i, d }] of the source. *)
Definition applyFixedDecimals (intDigits decDigits : text) (decimals : Z)
  : text * text :=
  let cleanI := or_else (keep_digits (or_else intDigits (str "0"))) (str "0") in
  let cleanD := keep_digits decDigits in
  if (decimals <=? 0)%Z then
    let carry :=
      match cleanD with
      | c :: _ => if (5 <=? digit_value c)%N then 1%N else 0%N
      | [] => 0%N
      end in
    let big := (BigInt.of_digits cleanI + carry)%N in
    (BigInt.toString big, [])
  else
    let n := Z.to_nat decimals in
    if Nat.eqb (length cleanD) n then (cleanI, cleanD)
    else if Nat.ltb (length cleanD) n then (cleanI, padEnd n c_zero cleanD)
    else
      let keep := slice 0 n cleanD in
      let next := nth n cleanD c_zero in
      if (digit_value next <? 5)%N then (cleanI, keep)
      else
        let inc :=
          padStart (length cleanI + length keep) c_zero
            (BigInt.toString (BigInt.of_digits (cleanI ++ keep) + 1)%N) in
        let newI := or_else (slice 0 (length inc - n) inc) (str "0") in
        let newD := slice_last n inc in
        (newI, newD).

(** Keep the first comma, drop the other ones. *)
Definition keepFirstCommaOnly (s : text) : text :=
  match indexOf c_comma s with
  | None => s
  | Some idx => slice 0 (idx + 1) s ++ remove_commas (slice_from (idx + 1) s)
  end.

(** The fixed-point factory; the methods of the object it builds are
    functions of the three fields. *)
Definition makeFixed (sg : IdxSign) (intDigits decDigits : text) : FixedIdr :=
  let i := or_else (strip_leading_zeros intDigits) (str "0") in
  let d := keep_digits decDigits in
  mkFixed sg (BigInt.of_digits (i ++ d)) (length d).

Definition sign_prefix (sg : IdxSign) : text :=
  match sg with SignMinus => [c_minus] | SignPlus => [] end.

(** The [toString] method of the object built by [makeFixed]. *)
Definition FixedIdr_toString (fx : FixedIdr) : text :=
  if Nat.eqb (scale fx) 0 then
    sign_prefix (sign fx) ++ BigInt.toString (units fx)
  else
    let s := padStart (scale fx + 1) c_zero (BigInt.toString (units fx)) in
    let head := slice 0 (length s - scale fx) s in
    let tail := slice_last (scale fx) s in
    sign_prefix (sign fx) ++ head ++ c_dot :: tail.

(** ** formatIdr *)

(** The inner function [finish] of [formatIdr]; [rawDecimals] is
    optional, [None] standing for undefined. *)
Definition finish (o : FormatIdrOptions) (intDigits : text)
  (rawDecimals : option text) : text :=
  match decimals o with
  | Auto =>
      let iFmt := groupThousandsStr intDigits in
      match rawDecimals with
      | None | Some [] => iFmt
      | Some raw =>
          let dec := if padZeros o then padEnd 2 c_zero raw else raw in
          iFmt ++ c_comma :: dec
      end
  | Fixed n =>
      let '(i, d) :=
        applyFixedDecimals intDigits
          (match rawDecimals with Some raw => raw | None => [] end) n in
      let iFmt := groupThousandsStr i in
      if (0 <? n)%Z then iFmt ++ c_comma :: d else iFmt
  end.

(** The body of [formatIdr] from [String(value).trim()] on. *)
Definition format_text (value : text) (o : FormatIdrOptions) : text :=
  let str0 := trim value in
  let negative := startsWith c_minus str0 in
  let str1 := if negative then slice_from 1 str0 else str0 in
  let display :=
    if includes c_comma str1 then
      let only := keep_digits_commas str1 in
      let raw := keepFirstCommaOnly only in
      let parts := split c_comma raw in
      let intPart := piece 0 parts in
      let decPart := piece 1 parts in
      let intDigits := or_else (keep_digits intPart) (str "0") in
      let decDigits := keep_digits decPart in
      finish o intDigits (Some decDigits)
    else if includes c_dot str1 then
      let s := remove_spaces str1 in
      if thousandPattern s then
        let digits := or_else (remove_dots s) (str "0") in
        finish o digits None
      else
        let parts := split_limit c_dot 2 s in
        let left := piece 0 parts in
        let right := piece 1 parts in
        let intDigits := or_else (keep_digits left) (str "0") in
        let decDigits := keep_digits right in
        finish o intDigits (Some decDigits)
    else
      let digits := or_else (keep_digits str1) (str "0") in
      finish o digits None in
  if negative then c_minus :: display else display.

(** [formatIdr(value, options)]: null, undefined and "" give ""; a
    FixedIdr is formatted through its canonical string. *)
Definition formatIdr (value : Value) (o : FormatIdrOptions) : text :=
  match value with
  | VNull => []
  | VStr s => if is_empty s then [] else format_text s o
  | VNum rendering => format_text rendering o
  | VFixed fx =>
      let s := FixedIdr_toString fx in
      if is_empty s then [] else format_text s o
  end.

(** The text [formatIdr] works on, if any: [None] for the inputs answered
    by the empty text at once. *)
Definition input_text (value : Value) : option text :=
  match value with
  | VNull => None
  | VStr s => if is_empty s then None else Some s
  | VNum rendering => Some rendering
  | VFixed fx =>
      let s := FixedIdr_toString fx in
      if is_empty s then None else Some s
  end.

(** ** parseIdr *)

(** The body of [parseIdr] from [String(str).trim()] on. *)
Definition parse_text (value : text) (mode : ParseMode) : Parsed :=
  let s0 := trim value in
  let isNegative := startsWith c_minus s0 in
  let s1 := if isNegative then slice_from 1 s0 else s0 in
  let s2 := keep_digits_dots_commas s1 in
  if is_empty s2 then PNull
  else
    let s3 := keepFirstCommaOnly s2 in
    let normalized := replace_first_comma (remove_dots s3) in
    if is_empty normalized then PNull
    else if list_eq_dec N.eq_dec normalized [c_dot] then PNull
    else
      let parts := split c_dot normalized in
      let intRaw := piece 0 parts in
      let decRaw := piece 1 parts in
      let intDigits := or_else (keep_digits intRaw) (str "0") in
      let decDigits := keep_digits decRaw in
      match mode with
      | ModeFixed =>
          PFixed (makeFixed (if isNegative then SignMinus else SignPlus)
                    intDigits decDigits)
      | ModeNumber =>
          PNumber ((if isNegative then [c_minus] else [])
                   ++ intDigits
                   ++ (if is_empty decDigits then [] else c_dot :: decDigits))
      end.

(** [parseIdr(str, { mode })]: null, undefined and "" give null. *)
Definition parseIdr (value : Value) (mode : ParseMode) : Parsed :=
  match value with
  | VNull => PNull
  | VStr s => if is_empty s then PNull else parse_text s mode
  | VNum rendering => parse_text rendering mode
  | VFixed fx =>
      (* outside the declared type of [str]; [String(str)] calls [toString] *)
      parse_text (FixedIdr_toString fx) mode
  end.


(** ** Notions the properties are stated with *)

Definition all_digits (s : text) : bool := forallb is_digit s.

(** The text before the first [sep], and the text after it. *)
Fixpoint before (sep : char) (s : text) : text :=
  match s with
  | [] => []
  | c :: r => if N.eqb c sep then [] else c :: before sep r
  end.

Fixpoint after (sep : char) (s : text) : text :=
  match s with
  | [] => []
  | c :: r => if N.eqb c sep then r else after sep r
  end.

(** The sign [formatIdr] and [parseIdr] detect, and the text they go on
    with: the trimmed input without its leading minus. *)
Definition is_negative (value : text) : bool := startsWith c_minus (trim value).

Definition magnitude (value : text) : text :=
  if is_negative value then slice_from 1 (trim value) else trim value.

Definition minus_if (b : bool) : text := if b then [c_minus] else [].

(** The integer digits and the decimal digits [formatIdr] hands to
    [finish], branch by branch. *)
Definition classify (str1 : text) : text * option text :=
  if includes c_comma str1 then
    let parts := split c_comma (keepFirstCommaOnly (keep_digits_commas str1)) in
    (or_else (keep_digits (piece 0 parts)) (str "0"),
     Some (keep_digits (piece 1 parts)))
  else if includes c_dot str1 then
    let s := remove_spaces str1 in
    if thousandPattern s then (or_else (remove_dots s) (str "0"), None)
    else
      let parts := split_limit c_dot 2 s in
      (or_else (keep_digits (piece 0 parts)) (str "0"),
       Some (keep_digits (piece 1 parts)))
  else (or_else (keep_digits str1) (str "0"), None).

(** The decimal digits of a classification, none being no digit. *)
Definition dec_digits (r : option text) : text :=
  match r with Some d => d | None => [] end.

(** The cleaned text of the specification: only digits, dots and commas. *)
Definition cleaned (s : text) : text := keep_digits_dots_commas s.

(** The canonical form of an integer digit string: no superfluous
    leading zero, "0" for nothing. *)
Definition canon (s : text) : text := or_else (strip_leading_zeros s) (str "0").

(** Rounding, as the specification words it: the number I.D in units of
    10^-n, rounded half up on the digit of D at position n. *)
Definition round_half_up_units (I D : text) (n : nat) : N :=
  (BigInt.of_digits I * 10 ^ N.of_nat n
   + BigInt.of_digits (firstn n (D ++ repeat c_zero n))
   + (if 5 <=? digit_value (nth n D c_zero) then 1 else 0))%N.

(** The integer digits and the n decimal digits of a number of units. *)
Definition render_units (u : N) (n : nat) : text * text :=
  (BigInt.toString (u / 10 ^ N.of_nat n)%N,
   if Nat.eqb n 0 then []
   else padStart n c_zero (BigInt.toString (u mod 10 ^ N.of_nat n)%N)).

(** Formatting with a fixed count of decimals, as the specification words
    it: the rounded number, its integer digits grouped, then a comma and
    exactly [n] decimal digits unless [n] is 0. *)
Definition spec_fixed_text (negative : bool) (I D : text) (n : nat) : text :=
  let '(i, d) := render_units (round_half_up_units I D n) n in
  minus_if negative ++ groupThousandsStr i
  ++ (if Nat.eqb n 0 then [] else c_comma :: d).

(** Parsing, as the specification words it: the first comma is the
    decimal marker, the digits before it are the integer digits and the
    digits after it the decimal digits; a dot counts for nothing wherever
    it stands, and a text without digits has no value. *)
Definition parse_spec (negative : bool) (m : text) (mode : ParseMode) : Parsed :=
  let intDigits := keep_digits (before c_comma m) in
  let decDigits := keep_digits (after c_comma m) in
  if is_empty intDigits && is_empty decDigits then PNull
  else
    match mode with
    | ModeFixed =>
        PFixed (makeFixed (if negative then SignMinus else SignPlus)
                  (or_else intDigits (str "0")) decDigits)
    | ModeNumber =>
        PNumber (minus_if negative ++ or_else intDigits (str "0")
                 ++ (if is_empty decDigits then [] else c_dot :: decDigits))
    end.

(** One or more blocks of a dot and three digits. *)
Inductive Blocks : text -> Prop :=
| Blocks_nil : Blocks []
| Blocks_cons a b c r :
    is_digit a = true -> is_digit b = true -> is_digit c = true ->
    Blocks r -> Blocks (c_dot :: a :: b :: c :: r).

(** [g] is the integer digits [c] in groups of three from the right:
    one to three digits, then blocks of a dot and three digits. *)
Definition grouped (g c : text) : Prop :=
  exists p gs,
    g = p ++ gs /\ p <> [] /\ length p <= 3 /\ all_digits p = true /\
    Blocks gs /\ p ++ remove_dots gs = c /\
    (length c <= 3 -> gs = []) /\ (3 < length c -> gs <> []).

(** A text without white space; a digit or a dot. *)
Definition no_space (s : text) : bool := forallb (fun c => negb (is_space c)) s.

Definition digit_or_dot (c : char) : bool := is_digit c || N.eqb c c_dot.

(** An integer part as [formatIdr] writes it: one to three digits without
    a superfluous leading zero, or groups of three after a first group
    that does not start with a zero. *)
Definition well_grouped (G : text) : Prop :=
  (all_digits G = true /\ canon G = G /\ length G <= 3)
  \/ (thousandPattern G = true /\ startsWith c_zero G = false).

(** The result of [parseIdr] with the sign turned to minus. *)
Definition with_minus (p : Parsed) : Parsed :=
  match p with
  | PNull => PNull
  | PNumber lit => PNumber (c_minus :: lit)
  | PFixed fx => PFixed (mkFixed SignMinus (units fx) (scale fx))
  end.

(** * Properties *)

(** ** Characters *)

(** The bounds 48 <= c <= 57 of a digit, from [is_digit c = true]. *)
Ltac digit_bounds H :=
  unfold is_digit in H; apply andb_true_iff in H;
  let Hlo := fresh "Hlo" in
  let Hhi := fresh "Hhi" in
  destruct H as [Hlo Hhi]; apply N.leb_le in Hlo; apply N.leb_le in Hhi.

Lemma digit_not_space c : is_digit c = true -> is_space c = false.
Proof.
  intros H. digit_bounds H. unfold is_space, white_space. simpl.
  repeat match goal with
         | |- context [N.eqb c ?k] => destruct (N.eqb_spec c k); [lia|]
         end.
  reflexivity.
Qed.

Lemma digit_not_dot c : is_digit c = true -> N.eqb c c_dot = false.
Proof. intros H. digit_bounds H. apply N.eqb_neq. unfold c_dot. lia. Qed.

Lemma digit_not_comma c : is_digit c = true -> N.eqb c c_comma = false.
Proof. intros H. digit_bounds H. apply N.eqb_neq. unfold c_comma. lia. Qed.

Lemma digit_not_minus c : is_digit c = true -> N.eqb c c_minus = false.
Proof. intros H. digit_bounds H. apply N.eqb_neq. unfold c_minus. lia. Qed.

Lemma digit_char_value c : is_digit c = true -> digit_char (digit_value c) = c.
Proof. intros H. digit_bounds H. unfold digit_char, digit_value. lia. Qed.

Lemma digit_value_char d : (d < 10)%N -> digit_value (digit_char d) = d.
Proof. unfold digit_char, digit_value. lia. Qed.

Lemma digit_char_digit d : (d < 10)%N -> is_digit (digit_char d) = true.
Proof.
  unfold is_digit, digit_char. intros H.
  apply andb_true_iff. split; apply N.leb_le; lia.
Qed.

Lemma digit_value_lt c : is_digit c = true -> (digit_value c < 10)%N.
Proof. intros H. digit_bounds H. unfold digit_value. lia. Qed.

(** ** Digit strings *)

Lemma all_digits_app a b :
  all_digits (a ++ b) = all_digits a && all_digits b.
Proof. apply forallb_app. Qed.

Lemma all_digits_firstn k s : all_digits s = true -> all_digits (firstn k s) = true.
Proof.
  revert k. induction s as [|c s IH]; intros [|k] H; simpl in *; auto.
  apply andb_true_iff in H. destruct H as [Hc Hs].
  rewrite Hc. simpl. auto.
Qed.

Lemma all_digits_skipn k s : all_digits s = true -> all_digits (skipn k s) = true.
Proof.
  revert k. induction s as [|c s IH]; intros [|k] H; simpl in *; auto.
  apply andb_true_iff in H. destruct H as [Hc Hs]. auto.
Qed.

Lemma all_digits_repeat_zero k : all_digits (repeat c_zero k) = true.
Proof. induction k; simpl; auto. Qed.

Lemma keep_digits_all s : all_digits s = true -> keep_digits s = s.
Proof.
  induction s as [|c s IH]; simpl; intros H; auto.
  apply andb_true_iff in H. destruct H as [Hc Hs].
  rewrite Hc, IH; auto.
Qed.

Lemma keep_digits_digits s : all_digits (keep_digits s) = true.
Proof.
  induction s as [|c s IH]; simpl; auto.
  destruct (is_digit c) eqn:E; simpl; auto. rewrite E. auto.
Qed.

Lemma or_else_nonempty a b : a <> [] -> or_else a b = a.
Proof. intros H. destruct a; [contradiction|reflexivity]. Qed.

(** ** BigInt *)

Module BigIntFacts.
Import BigInt.

Lemma of_digits_acc s acc :
  fold_left (fun a c => (10 * a + digit_value c)%N) s acc
  = (acc * 10 ^ N.of_nat (length s) + of_digits s)%N.
Proof.
  unfold of_digits. revert acc.
  induction s as [|c s IH]; intros acc.
  - simpl. lia.
  - cbn [fold_left length]. rewrite IH. rewrite (IH (10 * 0 + digit_value c)%N).
    rewrite Nat2N.inj_succ, N.pow_succ_r'. lia.
Qed.

Lemma of_digits_app a b :
  of_digits (a ++ b)
  = (of_digits a * 10 ^ N.of_nat (length b) + of_digits b)%N.
Proof.
  unfold of_digits at 1. rewrite fold_left_app.
  fold (of_digits a). apply of_digits_acc.
Qed.

Lemma of_digits_snoc s c :
  of_digits (s ++ [c]) = (10 * of_digits s + digit_value c)%N.
Proof. unfold of_digits. rewrite fold_left_app. reflexivity. Qed.

Lemma of_digits_bound s :
  all_digits s = true -> (of_digits s < 10 ^ N.of_nat (length s))%N.
Proof.
  induction s as [|c s IH] using rev_ind; intros H.
  - simpl. unfold of_digits. simpl. lia.
  - rewrite all_digits_app in H. apply andb_true_iff in H.
    destruct H as [Hs Hc]. simpl in Hc. rewrite andb_true_r in Hc.
    rewrite of_digits_snoc, length_app. simpl length.
    replace (length s + 1) with (S (length s)) by lia.
    rewrite Nat2N.inj_succ, N.pow_succ_r'.
    specialize (IH Hs). pose proof (digit_value_lt c Hc). lia.
Qed.

Lemma of_digits_zeros k s : of_digits (repeat c_zero k ++ s) = of_digits s.
Proof.
  rewrite of_digits_app.
  assert (H : of_digits (repeat c_zero k) = 0%N).
  { induction k as [|k IH]; [reflexivity|].
    change (repeat c_zero (S k)) with ([c_zero] ++ repeat c_zero k).
    rewrite of_digits_app, IH. reflexivity. }
  rewrite H. lia.
Qed.

Lemma toString_fuel_irrel f : forall g n,
  (n < 2 ^ N.of_nat f)%N -> (n < 2 ^ N.of_nat g)%N ->
  toString_fuel (S f) n = toString_fuel (S g) n.
Proof.
  induction f as [|f IH]; intros g n Hf Hg.
  - simpl in Hf. assert (n = 0%N) by lia. subst. reflexivity.
  - cbn [toString_fuel]. destruct (N.ltb_spec n 10) as [Hlt|Hge]; [reflexivity|].
    destruct g as [|g].
    + simpl in Hg. lia.
    + f_equal.
      rewrite Nat2N.inj_succ, N.pow_succ_r' in Hf, Hg.
      assert (Hd : (n / 10 <= n / 2)%N).
      { apply N.div_le_compat_l. lia. }
      assert (H2 : (n / 2 < 2 ^ N.of_nat f)%N).
      { apply N.Div0.div_lt_upper_bound. lia. }
      assert (H3 : (n / 2 < 2 ^ N.of_nat g)%N).
      { apply N.Div0.div_lt_upper_bound. lia. }
      apply IH; lia.
Qed.

Lemma size_adequate n : (n < 2 ^ N.of_nat (N.to_nat (N.size n)))%N.
Proof. rewrite N2Nat.id. apply N.size_gt. Qed.

(** The fuel of [toString] is enough: the function obeys the equation of
    repeated division by ten. *)
Lemma toString_unfold n :
  toString n =
  if (n <? 10)%N then [digit_char n]
  else toString (n / 10)%N ++ [digit_char (n mod 10)%N].
Proof.
  unfold toString at 1. cbn [toString_fuel].
  destruct (N.ltb_spec n 10) as [Hlt|Hge]; [reflexivity|].
  f_equal. unfold toString.
  pose proof (size_adequate n) as Hn.
  pose proof (size_adequate (n / 10)) as Hm.
  destruct (N.to_nat (N.size n)) as [|f] eqn:Ef.
  - simpl in Hn. lia.
  - apply toString_fuel_irrel; [|exact Hm].
    rewrite Nat2N.inj_succ, N.pow_succ_r' in Hn.
    assert (Hd : (n / 10 <= n / 2)%N) by (apply N.div_le_compat_l; lia).
    assert (H2 : (n / 2 < 2 ^ N.of_nat f)%N)
      by (apply N.Div0.div_lt_upper_bound; lia).
    lia.
Qed.

Lemma toString_small n : (n < 10)%N -> toString n = [digit_char n].
Proof.
  intros H. rewrite toString_unfold.
  destruct (N.ltb_spec n 10); [reflexivity|lia].
Qed.

Lemma toString_big n :
  (10 <= n)%N -> toString n = toString (n / 10)%N ++ [digit_char (n mod 10)%N].
Proof.
  intros H. rewrite toString_unfold.
  destruct (N.ltb_spec n 10); [lia|reflexivity].
Qed.

Lemma toString_ind (P : N -> Prop) :
  (forall n, (n < 10)%N -> P n) ->
  (forall n, (10 <= n)%N -> P (n / 10)%N -> P n) ->
  forall n, P n.
Proof.
  intros Hs Hb n.
  induction n as [n IH] using (well_founded_induction N.lt_wf_0).
  destruct (N.ltb_spec n 10) as [Hlt|Hge]; [auto|].
  apply Hb; [exact Hge|]. apply IH.
  apply N.div_lt; lia.
Qed.

Lemma of_digits_toString n : of_digits (toString n) = n.
Proof.
  induction n as [n Hn | n Hn IH] using toString_ind.
  - rewrite toString_small by exact Hn. unfold of_digits. simpl.
    rewrite digit_value_char by exact Hn. lia.
  - rewrite toString_big by exact Hn.
    rewrite of_digits_snoc, IH.
    rewrite digit_value_char by (apply N.mod_lt; lia).
    rewrite (N.div_mod n 10) at 3 by lia. reflexivity.
Qed.

Lemma toString_digits n : all_digits (toString n) = true.
Proof.
  induction n as [n Hn | n Hn IH] using toString_ind.
  - rewrite toString_small by exact Hn. simpl.
    rewrite digit_char_digit by exact Hn. reflexivity.
  - rewrite toString_big by exact Hn.
    rewrite all_digits_app, IH. simpl.
    rewrite digit_char_digit by (apply N.mod_lt; lia). reflexivity.
Qed.

Lemma toString_nonempty n : toString n <> [].
Proof.
  rewrite toString_unfold. destruct (n <? 10)%N; [discriminate|].
  intros H. apply app_eq_nil in H. destruct H; discriminate.
Qed.

End BigIntFacts.

(** ** Leading zeros *)

Lemma strip_decomp s :
  exists k, s = repeat c_zero k ++ strip_leading_zeros s.
Proof.
  induction s as [|a s IH].
  - exists 0. reflexivity.
  - destruct s as [|b r].
    + exists 0. reflexivity.
    + cbn [strip_leading_zeros]. destruct (N.eqb_spec a c_zero) as [->|Hne].
      * destruct IH as [k Hk]. exists (S k). simpl. f_equal. exact Hk.
      * exists 0. reflexivity.
Qed.

Lemma strip_nonempty s : s <> [] -> strip_leading_zeros s <> [].
Proof.
  induction s as [|a s IH]; intros H; [contradiction|].
  destruct s as [|b r]; [discriminate|].
  cbn [strip_leading_zeros]. destruct (N.eqb a c_zero); [|discriminate].
  apply IH. discriminate.
Qed.

Lemma strip_digits s :
  all_digits s = true -> all_digits (strip_leading_zeros s) = true.
Proof.
  intros H. destruct (strip_decomp s) as [k Hk].
  rewrite Hk, all_digits_app in H. apply andb_true_iff in H. tauto.
Qed.

Lemma strip_idem s :
  strip_leading_zeros (strip_leading_zeros s) = strip_leading_zeros s.
Proof.
  induction s as [|a s IH]; [reflexivity|].
  destruct s as [|b r]; [reflexivity|].
  cbn [strip_leading_zeros] in *. destruct (N.eqb a c_zero) eqn:E; [exact IH|].
  cbn [strip_leading_zeros]. rewrite E. reflexivity.
Qed.

Lemma strip_snoc_zero s c :
  strip_leading_zeros s = [c_zero] -> strip_leading_zeros (s ++ [c]) = [c].
Proof.
  induction s as [|a s IH]; intros H; [discriminate|].
  destruct s as [|b r].
  - simpl in H. injection H as ->. reflexivity.
  - change ((a :: b :: r) ++ [c]) with (a :: (b :: r) ++ [c]).
    cbn [strip_leading_zeros app] in *.
    destruct (N.eqb a c_zero); [|discriminate].
    apply IH. exact H.
Qed.

Lemma strip_snoc_other s c :
  s <> [] -> strip_leading_zeros s <> [c_zero] ->
  strip_leading_zeros (s ++ [c]) = strip_leading_zeros s ++ [c].
Proof.
  induction s as [|a s IH]; intros Hs H; [contradiction|].
  destruct s as [|b r].
  - simpl in *. destruct (N.eqb_spec a c_zero) as [->|Hne]; [contradiction|].
    reflexivity.
  - change ((a :: b :: r) ++ [c]) with (a :: (b :: r) ++ [c]).
    cbn [strip_leading_zeros app] in *.
    destruct (N.eqb a c_zero); [|reflexivity].
    apply IH; [discriminate|exact H].
Qed.

Lemma canon_nonempty s : canon s <> [].
Proof.
  unfold canon, or_else. destruct (strip_leading_zeros s); discriminate.
Qed.

Lemma canon_strip s : s <> [] -> canon s = strip_leading_zeros s.
Proof.
  intros H. unfold canon. apply or_else_nonempty. apply strip_nonempty, H.
Qed.

Lemma canon_digits s : all_digits s = true -> all_digits (canon s) = true.
Proof.
  intros H. destruct s as [|a s]; [reflexivity|].
  rewrite canon_strip by discriminate. apply strip_digits, H.
Qed.

Lemma canon_idem s : canon (canon s) = canon s.
Proof.
  destruct s as [|a s]; [reflexivity|].
  rewrite (canon_strip (a :: s)) by discriminate.
  rewrite canon_strip by (apply strip_nonempty; discriminate).
  apply strip_idem.
Qed.

Module BigIntCanon.
Import BigInt BigIntFacts.

Lemma of_digits_strip s : of_digits (strip_leading_zeros s) = of_digits s.
Proof.
  destruct (strip_decomp s) as [k Hk]. rewrite Hk at 2.
  symmetry. apply of_digits_zeros.
Qed.

Lemma toString_zero_iff n : toString n = [c_zero] <-> n = 0%N.
Proof.
  split; intros H.
  - rewrite <- (of_digits_toString n), H. reflexivity.
  - subst. reflexivity.
Qed.

(** [BigInt(s).toString()] drops the leading zeros of [s]. *)
Lemma toString_of_digits s :
  all_digits s = true -> s <> [] ->
  toString (of_digits s) = strip_leading_zeros s.
Proof.
  induction s as [|c s IH] using rev_ind; intros Hd Hne; [contradiction|].
  rewrite all_digits_app in Hd. apply andb_true_iff in Hd.
  destruct Hd as [Hs Hc]. simpl in Hc. rewrite andb_true_r in Hc.
  rewrite of_digits_snoc.
  pose proof (digit_value_lt c Hc) as Hlt.
  destruct s as [|a r].
  - simpl. replace (10 * of_digits [] + digit_value c)%N with (digit_value c)
      by (unfold of_digits; simpl; lia).
    rewrite toString_small by exact Hlt.
    rewrite digit_char_value by exact Hc. reflexivity.
  - specialize (IH Hs ltac:(discriminate)).
    destruct (N.eq_dec (of_digits (a :: r)) 0) as [Hz|Hnz].
    + rewrite Hz in *. rewrite strip_snoc_zero.
      * rewrite toString_small by lia.
        replace (10 * 0 + digit_value c)%N with (digit_value c) by lia.
        rewrite digit_char_value by exact Hc. reflexivity.
      * rewrite <- IH. reflexivity.
    + rewrite strip_snoc_other; [|discriminate|].
      * rewrite toString_big by lia.
        replace ((10 * of_digits (a :: r) + digit_value c) / 10)%N
          with (of_digits (a :: r)).
        2:{ symmetry. rewrite N.mul_comm. rewrite N.div_add_l by lia.
            rewrite N.div_small by exact Hlt. lia. }
        replace ((10 * of_digits (a :: r) + digit_value c) mod 10)%N
          with (digit_value c).
        2:{ symmetry. rewrite N.add_comm, N.mul_comm.
            rewrite N.Div0.mod_add. apply N.mod_small, Hlt. }
        rewrite IH, digit_char_value by exact Hc. reflexivity.
      * rewrite <- IH. intros H. apply toString_zero_iff in H. contradiction.
Qed.

Lemma toString_of_digits_canon s :
  all_digits s = true -> toString (of_digits s) = canon s.
Proof.
  intros H. destruct s as [|a r]; [reflexivity|].
  rewrite canon_strip by discriminate.
  apply toString_of_digits; [exact H|discriminate].
Qed.

Lemma toString_canon n : canon (toString n) = toString n.
Proof.
  rewrite <- (toString_of_digits_canon (toString n)) by apply toString_digits.
  rewrite of_digits_toString. reflexivity.
Qed.

Lemma of_digits_canon s : of_digits (canon s) = of_digits s.
Proof.
  destruct s as [|a r]; [reflexivity|].
  rewrite canon_strip by discriminate. apply of_digits_strip.
Qed.

(** A digit string is its number, padded with zeros to its length. *)
Lemma padStart_toString d :
  all_digits d = true -> d <> [] ->
  padStart (length d) c_zero (toString (of_digits d)) = d.
Proof.
  intros Hd Hne. rewrite toString_of_digits by assumption.
  destruct (strip_decomp d) as [k Hk].
  set (t := strip_leading_zeros d) in *.
  assert (Hl : length d = k + length t).
  { rewrite Hk at 1. rewrite length_app, repeat_length. reflexivity. }
  unfold padStart. rewrite Hl.
  replace (k + length t - length t) with k by lia.
  symmetry. exact Hk.
Qed.

End BigIntCanon.

(** ** applyFixedDecimals *)

Lemma slice_0 k (s : text) : slice 0 k s = firstn k s.
Proof. unfold slice. rewrite Nat.sub_0_r. reflexivity. Qed.

Lemma firstn_repeat_le (c : char) k n : k <= n -> firstn k (repeat c n) = repeat c k.
Proof.
  revert n. induction k as [|k IH]; intros n H; [reflexivity|].
  destruct n as [|n]; [lia|]. simpl. f_equal. apply IH. lia.
Qed.

Lemma firstn_padded (D : text) n :
  firstn n (D ++ repeat c_zero n) = firstn n D ++ repeat c_zero (n - length D).
Proof.
  rewrite firstn_app. f_equal. apply firstn_repeat_le. lia.
Qed.

Lemma clean_int_digits I :
  all_digits I = true -> I <> [] ->
  or_else (keep_digits (or_else I (str "0"))) (str "0") = I.
Proof.
  intros Hd Hne. rewrite (or_else_nonempty I) by exact Hne.
  rewrite keep_digits_all by exact Hd. apply or_else_nonempty, Hne.
Qed.

Section Rounding.
Import BigInt BigIntFacts BigIntCanon.

Variables (I D : text) (z : Z).
Hypothesis HI : all_digits I = true.
Hypothesis HIne : I <> [].
Hypothesis HD : all_digits D = true.

Let n := Z.to_nat z.

Lemma no_carry_beyond : length D <= n ->
  (if (5 <=? digit_value (nth n D c_zero))%N then 1%N else 0%N) = 0%N.
Proof. intros H. rewrite nth_overflow by exact H. reflexivity. Qed.

(** The incremented digits of the carry case. *)
Lemma carry_digits keep :
  all_digits keep = true -> length keep = n ->
  let inc := padStart (length I + length keep) c_zero
               (toString (of_digits (I ++ keep) + 1)%N) in
  let newI := or_else (slice 0 (length inc - n) inc) (str "0") in
  let newD := slice_last n inc in
  newI <> [] /\ all_digits newI = true /\ all_digits newD = true /\
  length newD = n /\
  of_digits (newI ++ newD) = (of_digits (I ++ keep) + 1)%N.
Proof.
  intros Hk Hlen inc newI newD.
  set (t := toString (of_digits (I ++ keep) + 1)%N) in *.
  assert (Hinc : all_digits inc = true).
  { unfold inc, padStart. rewrite all_digits_app, all_digits_repeat_zero.
    apply toString_digits. }
  assert (Hval : of_digits inc = (of_digits (I ++ keep) + 1)%N).
  { unfold inc, padStart. rewrite of_digits_zeros. apply of_digits_toString. }
  assert (Hge : length I + n <= length inc).
  { unfold inc, padStart. rewrite length_app, repeat_length. lia. }
  assert (HIpos : 0 < length I) by (destruct I; [contradiction|simpl; lia]).
  assert (Hfirst : slice 0 (length inc - n) inc <> []).
  { rewrite slice_0. intros E. apply (f_equal (@length char)) in E.
    rewrite length_firstn in E. simpl in E. lia. }
  unfold newI, newD. rewrite (or_else_nonempty _ _ Hfirst).
  repeat split.
  - exact Hfirst.
  - rewrite slice_0. apply all_digits_firstn, Hinc.
  - apply all_digits_skipn, Hinc.
  - unfold slice_last. rewrite length_skipn. lia.
  - rewrite slice_0. unfold slice_last. rewrite firstn_skipn. exact Hval.
Qed.

(** With a positive count of decimals, [applyFixedDecimals] yields the
    digits of the number rounded half up. *)
Lemma applyFixedDecimals_round :
  (0 < z)%Z ->
  let '(i, d) := applyFixedDecimals I D z in
  i <> [] /\ all_digits i = true /\ all_digits d = true /\ length d = n /\
  of_digits (i ++ d) = round_half_up_units I D n.
Proof.
  intros Hz. unfold applyFixedDecimals.
  rewrite clean_int_digits by assumption.
  rewrite keep_digits_all by exact HD.
  destruct (Z.leb_spec z 0) as [Hle|_]; [lia|].
  fold n. unfold round_half_up_units.
  destruct (Nat.eqb_spec (length D) n) as [Heq|Hneq].
  - repeat split; try assumption.
    rewrite firstn_padded, no_carry_beyond by lia.
    rewrite firstn_all2 by lia.
    replace (n - length D) with 0 by lia. simpl. rewrite app_nil_r.
    rewrite of_digits_app, Heq. lia.
  - destruct (Nat.ltb_spec (length D) n) as [Hlt|Hge].
    + unfold padEnd. repeat split; try assumption.
      * rewrite all_digits_app, HD. apply all_digits_repeat_zero.
      * rewrite length_app, repeat_length. lia.
      * rewrite firstn_padded, no_carry_beyond by lia.
        rewrite firstn_all2 by lia.
        rewrite of_digits_app. rewrite length_app, repeat_length.
        replace (length D + (n - length D)) with n by lia. lia.
    + assert (Hkeep : length (slice 0 n D) = n).
      { rewrite slice_0, length_firstn. lia. }
      assert (Hkd : all_digits (slice 0 n D) = true).
      { rewrite slice_0. apply all_digits_firstn, HD. }
      assert (Hpad : firstn n (D ++ repeat c_zero n) = slice 0 n D).
      { rewrite firstn_padded, slice_0.
        replace (n - length D) with 0 by lia. apply app_nil_r. }
      rewrite Hpad.
      destruct (N.ltb_spec (digit_value (nth n D c_zero)) 5) as [Hlow|Hhigh].
      * repeat split; try assumption.
        rewrite of_digits_app, Hkeep.
        destruct (N.leb_spec 5 (digit_value (nth n D c_zero))); lia.
      * pose proof (carry_digits (slice 0 n D) Hkd Hkeep) as Hc.
        cbv zeta in Hc. destruct Hc as (H1 & H2 & H3 & H4 & H5).
        repeat split; try assumption.
        rewrite H5, of_digits_app, Hkeep.
        destruct (N.leb_spec 5 (digit_value (nth n D c_zero))); lia.
Qed.

(** With no decimals asked for, the integer is incremented when the first
    decimal digit is 5 or more. *)
Lemma applyFixedDecimals_integer :
  (z <= 0)%Z ->
  applyFixedDecimals I D z =
  (toString (of_digits I
             + (if 5 <=? digit_value (nth 0 D c_zero) then 1 else 0))%N, []).
Proof.
  intros Hz. unfold applyFixedDecimals.
  rewrite clean_int_digits by assumption.
  rewrite keep_digits_all by exact HD.
  destruct (Z.leb_spec z 0) as [_|Hgt]; [|lia].
  destruct D as [|c r]; reflexivity.
Qed.

End Rounding.

Lemma render_units_digits i d n :
  i <> [] -> all_digits i = true -> all_digits d = true ->
  length d = n -> 0 < n ->
  render_units (BigInt.of_digits (i ++ d)) n = (canon i, d).
Proof.
  intros Hne Hi Hd Hlen Hn. unfold render_units.
  rewrite BigIntFacts.of_digits_app, Hlen.
  pose proof (BigIntFacts.of_digits_bound d Hd) as Hb. rewrite Hlen in Hb.
  assert (Hpow : (10 ^ N.of_nat n <> 0)%N) by (apply N.pow_nonzero; lia).
  rewrite N.div_add_l by exact Hpow.
  rewrite N.div_small by exact Hb. rewrite N.add_0_r.
  rewrite N.add_comm, N.Div0.mod_add. rewrite N.mod_small by exact Hb.
  rewrite BigIntCanon.toString_of_digits_canon by exact Hi.
  destruct (Nat.eqb_spec n 0) as [E|_]; [lia|].
  rewrite <- Hlen. rewrite BigIntCanon.padStart_toString; [reflexivity|exact Hd|].
  intros E. subst d. simpl in Hlen. lia.
Qed.

(** ** groupThousandsStr *)

Lemma group_loop_done fuel digits i out :
  (i <= 0)%Z -> group_loop fuel digits i out = out.
Proof.
  intros H. destruct fuel as [|f]; [reflexivity|].
  cbn [group_loop]. destruct (Z.ltb_spec 0 i); [lia|reflexivity].
Qed.

Lemma chunk_nonempty (digits : text) i :
  0 < i -> i <= length digits ->
  slice (Z.to_nat (Z.max 0 (Z.of_nat i - 3))) (Z.to_nat (Z.of_nat i)) digits <> [].
Proof.
  intros Hi Hlen E. apply (f_equal (@length char)) in E.
  unfold slice in E. rewrite length_firstn, length_skipn in E. simpl in E. lia.
Qed.

(** What the loop has built so far stays at the right of a dot. *)
Lemma group_loop_out fuel : forall digits i out,
  out <> [] -> i <= fuel -> i <= length digits ->
  group_loop fuel digits (Z.of_nat i) out =
  if Nat.eqb i 0 then out
  else group_loop fuel digits (Z.of_nat i) [] ++ c_dot :: out.
Proof.
  induction fuel as [|f IH]; intros digits i out Hout Hf Hlen.
  - replace i with 0 by lia. reflexivity.
  - destruct (Nat.eqb_spec i 0) as [->|Hi]; [reflexivity|].
    cbn [group_loop]. destruct (Z.ltb_spec 0 (Z.of_nat i)) as [_|Hle]; [|lia].
    pose proof (chunk_nonempty digits i ltac:(lia) Hlen) as Hchunk.
    set (chunk := slice _ _ digits) in *.
    destruct out as [|o out']; [contradiction|]. cbn [is_empty].
    destruct (Nat.leb_spec i 3) as [Hsmall|Hbig].
    + rewrite !group_loop_done by lia. reflexivity.
    + replace (Z.of_nat i - 3)%Z with (Z.of_nat (i - 3)) by lia.
      rewrite (IH digits (i - 3) (chunk ++ c_dot :: o :: out'));
        [|destruct chunk; discriminate|lia|lia].
      rewrite (IH digits (i - 3) chunk); [|exact Hchunk|lia|lia].
      destruct (Nat.eqb_spec (i - 3) 0) as [E|_]; [lia|].
      rewrite <- app_assoc. reflexivity.
Qed.

Lemma Blocks_app a b : Blocks a -> Blocks b -> Blocks (a ++ b).
Proof.
  intros Ha Hb. induction Ha as [|x y z r Hx Hy Hz Hr IH]; [exact Hb|].
  simpl. constructor; assumption.
Qed.

Lemma remove_dots_digits s : all_digits s = true -> remove_dots s = s.
Proof.
  induction s as [|c s IH]; simpl; intros H; [reflexivity|].
  apply andb_true_iff in H. destruct H as [Hc Hs].
  rewrite (digit_not_dot c Hc). simpl. f_equal. apply IH, Hs.
Qed.

Lemma remove_dots_app a b : remove_dots (a ++ b) = remove_dots a ++ remove_dots b.
Proof. apply filter_app. Qed.

Lemma firstn_add (s : text) a b :
  firstn (a + b) s = firstn a s ++ firstn b (skipn a s).
Proof.
  revert s. induction a as [|a IH]; intros s; [reflexivity|].
  destruct s as [|c s]; simpl.
  - rewrite firstn_nil. reflexivity.
  - f_equal. apply IH.
Qed.

Lemma three_digits (s : text) :
  length s = 3 -> all_digits s = true ->
  exists a b c, s = [a; b; c] /\
    is_digit a = true /\ is_digit b = true /\ is_digit c = true.
Proof.
  destruct s as [|a [|b [|c [|e r]]]]; simpl; intros Hl Hd; try discriminate.
  rewrite !andb_true_iff in Hd. exists a, b, c. tauto.
Qed.

(** The loop from index [i] groups the first [i] digits. *)
Lemma group_loop_grouped fuel : forall digits i,
  all_digits digits = true -> 0 < i -> i <= fuel -> i <= length digits ->
  grouped (group_loop fuel digits (Z.of_nat i) []) (firstn i digits).
Proof.
  induction fuel as [|f IH]; intros digits i Hd Hi Hf Hlen; [lia|].
  cbn [group_loop is_empty].
  destruct (Z.ltb_spec 0 (Z.of_nat i)) as [_|Hle]; [|lia].
  assert (Hfl : length (firstn i digits) = i) by (rewrite length_firstn; lia).
  destruct (Nat.leb_spec i 3) as [Hsmall|Hbig].
  - rewrite group_loop_done by lia.
    replace (Z.to_nat (Z.max 0 (Z.of_nat i - 3))) with 0 by lia.
    rewrite Nat2Z.id, slice_0.
    exists (firstn i digits), []. rewrite !app_nil_r.
    repeat split; try reflexivity.
    + intros E. rewrite E in Hfl. simpl in Hfl. lia.
    + lia.
    + apply all_digits_firstn, Hd.
    + constructor.
    + intros H. lia.
  - replace (Z.to_nat (Z.max 0 (Z.of_nat i - 3))) with (i - 3) by lia.
    rewrite Nat2Z.id.
    replace (Z.of_nat i - 3)%Z with (Z.of_nat (i - 3)) by lia.
    assert (Hchunk : slice (i - 3) i digits = firstn 3 (skipn (i - 3) digits)).
    { unfold slice. f_equal. lia. }
    rewrite Hchunk.
    assert (Hc3 : length (firstn 3 (skipn (i - 3) digits)) = 3).
    { rewrite length_firstn, length_skipn. lia. }
    assert (Hcd : all_digits (firstn 3 (skipn (i - 3) digits)) = true).
    { apply all_digits_firstn, all_digits_skipn, Hd. }
    destruct (three_digits _ Hc3 Hcd) as (a & b & c & Ec & Da & Db & Dc).
    rewrite group_loop_out; [|rewrite Ec; discriminate|lia|lia].
    destruct (Nat.eqb_spec (i - 3) 0) as [E|_]; [lia|].
    destruct (IH digits (i - 3) Hd ltac:(lia) ltac:(lia) ltac:(lia))
      as (p & gs & Eg & Hp & Hp3 & Hpd & Hb & Hrd & _ & _).
    exists p, (gs ++ c_dot :: firstn 3 (skipn (i - 3) digits)).
    repeat split; try assumption.
    + rewrite Eg, <- app_assoc. reflexivity.
    + apply Blocks_app; [exact Hb|]. rewrite Ec.
      constructor; try assumption. constructor.
    + rewrite remove_dots_app, app_assoc, Hrd.
      change (c_dot :: firstn 3 (skipn (i - 3) digits))
        with ([c_dot] ++ firstn 3 (skipn (i - 3) digits)).
      rewrite remove_dots_app. simpl (remove_dots [c_dot]). cbn [app].
      rewrite remove_dots_digits by exact Hcd.
      rewrite <- firstn_add. f_equal. lia.
    + intros H. lia.
    + intros _ E. apply app_eq_nil in E. destruct E; discriminate.
Qed.

(** [groupThousandsStr] groups the canonical form of its digits. *)
Lemma groupThousandsStr_grouped digits :
  all_digits digits = true -> grouped (groupThousandsStr digits) (canon digits).
Proof.
  intros Hd. unfold groupThousandsStr. fold (canon digits).
  pose proof (canon_nonempty digits) as Hne.
  pose proof (canon_digits digits Hd) as Hcd.
  rewrite <- (firstn_all (canon digits)) at 4.
  apply group_loop_grouped; try lia; try assumption.
  destruct (canon digits); [contradiction|simpl; lia].
Qed.

Lemma groupThousandsStr_canon digits :
  groupThousandsStr (canon digits) = groupThousandsStr digits.
Proof. unfold groupThousandsStr. fold (canon (canon digits)). rewrite canon_idem. reflexivity. Qed.

(** ** Splitting at a separator *)

Lemma includes_cons sep c (r : text) :
  includes sep (c :: r) = N.eqb c sep || includes sep r.
Proof. unfold includes. simpl. rewrite (N.eqb_sym sep c). reflexivity. Qed.

Lemma split_before_after sep s :
  split sep s =
  before sep s :: (if includes sep s then split sep (after sep s) else []).
Proof.
  induction s as [|c r IH]; [reflexivity|].
  rewrite includes_cons. cbn [split before after].
  destruct (N.eqb c sep); [reflexivity|].
  rewrite IH. reflexivity.
Qed.

Lemma piece_0_split sep s : piece 0 (split sep s) = before sep s.
Proof. rewrite split_before_after. reflexivity. Qed.

Lemma piece_1_split sep s :
  piece 1 (split sep s) =
  if includes sep s then before sep (after sep s) else [].
Proof.
  rewrite split_before_after. destruct (includes sep s); [|reflexivity].
  rewrite split_before_after. reflexivity.
Qed.

Lemma piece_split_limit sep s k :
  k < 2 -> piece k (split_limit sep 2 s) = piece k (split sep s).
Proof.
  intros H. unfold piece, split_limit. rewrite nth_firstn.
  destruct (Nat.ltb_spec k 2); [reflexivity|lia].
Qed.

Lemma before_no_sep sep s : includes sep s = false -> before sep s = s.
Proof.
  induction s as [|c r IH]; [reflexivity|].
  rewrite includes_cons. cbn [before]. intros H.
  apply orb_false_iff in H. destruct H as [Hc Hr].
  rewrite Hc. f_equal. apply IH, Hr.
Qed.

Lemma before_app sep a b :
  includes sep a = false -> before sep (a ++ sep :: b) = a.
Proof.
  induction a as [|c r IH]; intros H.
  - simpl. rewrite N.eqb_refl. reflexivity.
  - rewrite includes_cons in H. apply orb_false_iff in H. destruct H as [Hc Hr].
    simpl. rewrite Hc. f_equal. apply IH, Hr.
Qed.

Lemma after_app sep a b :
  includes sep a = false -> after sep (a ++ sep :: b) = b.
Proof.
  induction a as [|c r IH]; intros H.
  - simpl. rewrite N.eqb_refl. reflexivity.
  - rewrite includes_cons in H. apply orb_false_iff in H. destruct H as [Hc Hr].
    simpl. rewrite Hc. apply IH, Hr.
Qed.

Lemma includes_app sep (a b : text) :
  includes sep (a ++ b) = includes sep a || includes sep b.
Proof. apply existsb_app. Qed.

Lemma includes_filter sep f (s : text) :
  f sep = true -> includes sep (filter f s) = includes sep s.
Proof.
  intros Hf. induction s as [|c r IH]; [reflexivity|].
  simpl filter. destruct (f c) eqn:E.
  - rewrite !includes_cons, IH. reflexivity.
  - rewrite includes_cons, IH.
    destruct (N.eqb_spec c sep) as [->|_]; [congruence|reflexivity].
Qed.

Lemma includes_filter_out sep f (s : text) :
  f sep = false -> includes sep (filter f s) = false.
Proof.
  intros Hf. induction s as [|c r IH]; [reflexivity|].
  simpl filter. destruct (f c) eqn:E; [|exact IH].
  rewrite includes_cons, IH.
  destruct (N.eqb_spec c sep) as [->|_]; [congruence|reflexivity].
Qed.

Lemma before_filter sep f s :
  f sep = true -> before sep (filter f s) = filter f (before sep s).
Proof.
  intros Hf. induction s as [|c r IH]; [reflexivity|].
  cbn [filter before]. destruct (N.eqb_spec c sep) as [->|Hne].
  - rewrite Hf. simpl. rewrite N.eqb_refl. reflexivity.
  - destruct (f c) eqn:E; simpl; rewrite ?E.
    + destruct (N.eqb_spec c sep); [contradiction|]. f_equal. exact IH.
    + exact IH.
Qed.

Lemma after_filter sep f s :
  f sep = true -> after sep (filter f s) = filter f (after sep s).
Proof.
  intros Hf. induction s as [|c r IH]; [reflexivity|].
  cbn [filter after]. destruct (N.eqb_spec c sep) as [->|Hne].
  - rewrite Hf. simpl. rewrite N.eqb_refl. reflexivity.
  - destruct (f c) eqn:E; simpl.
    + destruct (N.eqb_spec c sep); [contradiction|]. exact IH.
    + exact IH.
Qed.

Lemma filter_filter (f g : char -> bool) s :
  (forall c, g c = true -> f c = true) ->
  filter g (filter f s) = filter g s.
Proof.
  intros H. induction s as [|c r IH]; [reflexivity|].
  simpl. destruct (f c) eqn:Ef; simpl.
  - rewrite IH. reflexivity.
  - destruct (g c) eqn:Eg; [|exact IH].
    specialize (H c Eg). congruence.
Qed.

Lemma indexOf_slices sep s idx :
  indexOf sep s = Some idx ->
  includes sep s = true /\
  slice 0 (idx + 1) s = before sep s ++ [sep] /\
  slice_from (idx + 1) s = after sep s.
Proof.
  revert idx. induction s as [|c r IH]; intros idx H; [discriminate|].
  rewrite includes_cons. cbn [indexOf before after] in *.
  destruct (N.eqb_spec c sep) as [->|Hne].
  - injection H as <-. repeat split; reflexivity.
  - destruct (indexOf sep r) as [j|] eqn:E; [|discriminate].
    injection H as <-. destruct (IH j eq_refl) as (H1 & H2 & H3).
    rewrite slice_0 in *. unfold slice_from in *.
    repeat split.
    + exact H1.
    + simpl. f_equal. exact H2.
    + simpl. exact H3.
Qed.

Lemma indexOf_none sep s : indexOf sep s = None -> includes sep s = false.
Proof.
  induction s as [|c r IH]; intros H; [reflexivity|].
  rewrite includes_cons. cbn [indexOf] in H.
  destruct (N.eqb c sep); [discriminate|].
  destruct (indexOf sep r); [discriminate|]. apply IH. reflexivity.
Qed.

(** [keepFirstCommaOnly] keeps the text up to the first comma and takes
    the commas out of what follows. *)
Lemma keepFirstCommaOnly_spec s :
  keepFirstCommaOnly s =
  if includes c_comma s
  then before c_comma s ++ c_comma :: remove_commas (after c_comma s)
  else s.
Proof.
  unfold keepFirstCommaOnly. destruct (indexOf c_comma s) as [idx|] eqn:E.
  - destruct (indexOf_slices _ _ _ E) as (H1 & H2 & H3).
    rewrite H1, H2, H3, <- app_assoc. reflexivity.
  - rewrite (indexOf_none _ _ E). reflexivity.
Qed.

Lemma remove_commas_no_comma s : includes c_comma (remove_commas s) = false.
Proof. apply includes_filter_out. reflexivity. Qed.

Lemma includes_before sep s : includes sep (before sep s) = false.
Proof.
  induction s as [|c r IH]; [reflexivity|].
  cbn [before]. destruct (N.eqb c sep) eqn:E; [reflexivity|].
  rewrite includes_cons, E. exact IH.
Qed.

(** The two pieces [formatIdr] reads in its comma branch. *)
Lemma comma_pieces s :
  includes c_comma s = true ->
  let parts := split c_comma (keepFirstCommaOnly s) in
  piece 0 parts = before c_comma s /\
  piece 1 parts = remove_commas (after c_comma s).
Proof.
  intros H. cbv zeta. rewrite keepFirstCommaOnly_spec, H.
  rewrite piece_0_split, piece_1_split.
  rewrite includes_app. rewrite includes_cons, N.eqb_refl, orb_true_r.
  rewrite before_app by apply includes_before.
  rewrite after_app by apply includes_before.
  rewrite (before_no_sep c_comma (remove_commas (after c_comma s)))
    by apply remove_commas_no_comma.
  split; reflexivity.
Qed.

(** ** Trimming *)

Lemma trimStart_decomp s :
  exists w, s = w ++ trimStart s /\ forallb is_space w = true.
Proof.
  induction s as [|c r IH].
  - exists []. split; reflexivity.
  - cbn [trimStart]. destruct (is_space c) eqn:E.
    + destruct IH as (w & Hw & Hs). exists (c :: w). split.
      * simpl. f_equal. exact Hw.
      * simpl. rewrite E. exact Hs.
    + exists []. split; reflexivity.
Qed.

Lemma trimStart_app c a b :
  is_space c = false -> trimStart (a ++ c :: b) = trimStart a ++ c :: b.
Proof.
  intros Hc. induction a as [|x a IH]; simpl.
  - rewrite Hc. reflexivity.
  - destruct (is_space x); [exact IH|reflexivity].
Qed.

Lemma trimEnd_decomp s :
  exists w, s = trimEnd s ++ w /\ forallb is_space w = true.
Proof.
  unfold trimEnd. destruct (trimStart_decomp (rev s)) as (w & Hw & Hs).
  exists (rev w). split.
  - rewrite <- (rev_involutive s) at 1. rewrite Hw at 1.
    apply rev_app_distr.
  - rewrite forallb_forall in *. intros x Hx. apply Hs.
    apply in_rev. exact Hx.
Qed.

Lemma filter_spaces f w :
  (forall c, is_space c = true -> f c = false) ->
  forallb is_space w = true -> filter f w = [].
Proof.
  intros Hf. induction w as [|c w IH]; simpl; intros H; [reflexivity|].
  apply andb_true_iff in H. destruct H as [Hc Hw].
  rewrite (Hf c Hc). apply IH, Hw.
Qed.

(** Trimming changes nothing for a filter that drops white space. *)
Lemma filter_trim f s :
  (forall c, is_space c = true -> f c = false) ->
  filter f (trim s) = filter f s.
Proof.
  intros Hf. unfold trim.
  destruct (trimStart_decomp s) as (w & Hw & Hs).
  destruct (trimEnd_decomp (trimStart s)) as (w' & Hw' & Hs').
  rewrite Hw at 2. rewrite Hw' at 2.
  rewrite !filter_app.
  rewrite (filter_spaces f w Hf Hs), (filter_spaces f w' Hf Hs').
  rewrite app_nil_r. reflexivity.
Qed.

Lemma trimStart_no_space s : no_space s = true -> trimStart s = s.
Proof.
  destruct s as [|c r]; [reflexivity|]. simpl. intros H.
  apply andb_true_iff in H. destruct H as [Hc _].
  destruct (is_space c); [discriminate|reflexivity].
Qed.

Lemma no_space_rev s : no_space (rev s) = no_space s.
Proof.
  unfold no_space. destruct (forallb _ s) eqn:E.
  - rewrite forallb_forall in *. intros x Hx. apply E, in_rev, Hx.
  - destruct (forallb _ (rev s)) eqn:E'; [|reflexivity].
    rewrite <- E. symmetry. rewrite forallb_forall in *.
    intros x Hx. apply E'. rewrite <- in_rev. exact Hx.
Qed.

Lemma trim_no_space s : no_space s = true -> trim s = s.
Proof.
  intros H. unfold trim, trimEnd. rewrite (trimStart_no_space s H).
  rewrite trimStart_no_space by (rewrite no_space_rev; exact H).
  apply rev_involutive.
Qed.

Lemma trim_cons c r : is_space c = false -> trim (c :: r) = c :: trimEnd r.
Proof.
  intros Hc. unfold trim. cbn [trimStart]. rewrite Hc.
  unfold trimEnd. cbn [rev]. rewrite trimStart_app by exact Hc.
  rewrite rev_app_distr. reflexivity.
Qed.

Lemma filter_trimEnd f s :
  (forall c, is_space c = true -> f c = false) ->
  filter f (trimEnd s) = filter f s.
Proof.
  intros Hf. destruct (trimEnd_decomp s) as (w & Hw & Hs).
  rewrite Hw at 2. rewrite filter_app, (filter_spaces f w Hf Hs).
  rewrite app_nil_r. reflexivity.
Qed.

Lemma space_not_digit c : is_space c = true -> is_digit c = false.
Proof.
  intros H. destruct (is_digit c) eqn:E; [|reflexivity].
  rewrite (digit_not_space c E) in H. discriminate.
Qed.

Lemma no_space_app a b : no_space (a ++ b) = no_space a && no_space b.
Proof. apply forallb_app. Qed.

Lemma digits_no_space s : all_digits s = true -> no_space s = true.
Proof.
  unfold all_digits, no_space. rewrite !forallb_forall. intros H x Hx.
  rewrite (digit_not_space x (H x Hx)). reflexivity.
Qed.

Lemma remove_spaces_no_space s : no_space s = true -> remove_spaces s = s.
Proof. unfold remove_spaces, no_space. apply forallb_filter_id. Qed.

(** ** Texts of digits and dots *)

Lemma Blocks_digit_or_dot gs : Blocks gs -> forallb digit_or_dot gs = true.
Proof.
  induction 1 as [|a b c r Ha Hb Hc Hr IH]; [reflexivity|].
  cbn [forallb]. rewrite IH. unfold digit_or_dot. rewrite Ha, Hb, Hc. reflexivity.
Qed.

Lemma digits_digit_or_dot s : all_digits s = true -> forallb digit_or_dot s = true.
Proof.
  unfold all_digits. rewrite !forallb_forall. intros H x Hx.
  unfold digit_or_dot. rewrite (H x Hx). reflexivity.
Qed.

Lemma digit_or_dot_cases c :
  digit_or_dot c = true ->
  (is_digit c = true /\ N.eqb c c_dot = false) \/
  (is_digit c = false /\ c = c_dot).
Proof.
  unfold digit_or_dot. intros H. destruct (is_digit c) eqn:E.
  - left. split; [reflexivity|]. apply digit_not_dot, E.
  - right. split; [reflexivity|]. apply N.eqb_eq. exact H.
Qed.

Section DigitsAndDots.

Variable g : text.
Hypothesis Hg : forallb digit_or_dot g = true.

Lemma dd_keep_digits : keep_digits g = remove_dots g.
Proof.
  apply filter_ext_in. intros c Hc.
  rewrite forallb_forall in Hg.
  destruct (digit_or_dot_cases c (Hg c Hc)) as [[-> ->]|[-> ->]]; reflexivity.
Qed.

Lemma dd_keep_digits_commas : keep_digits_commas g = remove_dots g.
Proof.
  apply filter_ext_in. intros c Hc.
  rewrite forallb_forall in Hg.
  destruct (digit_or_dot_cases c (Hg c Hc)) as [[-> ->]|[-> ->]]; reflexivity.
Qed.

Lemma dd_cleaned : keep_digits_dots_commas g = g.
Proof.
  unfold keep_digits_dots_commas. apply forallb_filter_id.
  rewrite forallb_forall in *. intros c Hc.
  specialize (Hg c Hc). unfold digit_or_dot in Hg. rewrite Hg. reflexivity.
Qed.

Lemma dd_no_comma : includes c_comma g = false.
Proof.
  unfold includes. destruct (existsb (N.eqb c_comma) g) eqn:E; [|reflexivity].
  apply existsb_exists in E. destruct E as (c & Hc & Ec).
  apply N.eqb_eq in Ec. subst c. rewrite forallb_forall in Hg.
  specialize (Hg _ Hc). discriminate.
Qed.

Lemma dd_no_space : no_space g = true.
Proof.
  unfold no_space. rewrite forallb_forall in *. intros c Hc.
  destruct (digit_or_dot_cases c (Hg c Hc)) as [[H _]|[_ ->]].
  - rewrite (digit_not_space c H). reflexivity.
  - reflexivity.
Qed.

End DigitsAndDots.

(** ** The thousands pattern *)

Lemma Blocks_dot_groups gs : Blocks gs -> gs <> [] -> dot_groups gs = true.
Proof.
  induction 1 as [|a b c r Ha Hb Hc Hr IH]; intros Hne; [contradiction|].
  cbn [dot_groups]. rewrite N.eqb_refl, Ha, Hb, Hc. simpl.
  destruct r as [|x r]; [reflexivity|]. apply IH. discriminate.
Qed.

Lemma dot_groups_Blocks_len n : forall s,
  length s <= n -> dot_groups s = true -> Blocks s.
Proof.
  induction n as [|n IH]; intros s Hlen H.
  - destruct s; [discriminate|simpl in Hlen; lia].
  - destruct s as [|d [|a [|b [|c r]]]]; try discriminate.
    cbn [dot_groups] in H. rewrite !andb_true_iff in H.
    destruct H as ((((Hd & Ha) & Hb) & Hc) & Hr).
    apply N.eqb_eq in Hd. subst d.
    constructor; try assumption.
    destruct r as [|x r]; [constructor|].
    apply IH; [simpl in *; lia|exact Hr].
Qed.

Lemma dot_groups_Blocks s : dot_groups s = true -> Blocks s.
Proof. apply (dot_groups_Blocks_len (length s)). lia. Qed.

Lemma dot_groups_head_digit c r : is_digit c = true -> dot_groups (c :: r) = false.
Proof.
  intros Hc. destruct r as [|a [|b [|d r]]]; try reflexivity.
  cbn [dot_groups]. rewrite (digit_not_dot c Hc). reflexivity.
Qed.

Lemma dot_groups_digits s : all_digits s = true -> dot_groups s = false.
Proof.
  destruct s as [|c r]; [reflexivity|]. simpl. intros H.
  apply andb_true_iff in H. apply dot_groups_head_digit. tauto.
Qed.

Lemma thousandPattern_digits s : all_digits s = true -> thousandPattern s = false.
Proof.
  intros H. unfold thousandPattern, digits_then_groups.
  rewrite !(dot_groups_digits (skipn _ s)) by (apply all_digits_skipn, H).
  rewrite !andb_false_r. reflexivity.
Qed.

Lemma digits_then_groups_app p gs :
  all_digits p = true -> Blocks gs -> gs <> [] ->
  digits_then_groups (length p) (p ++ gs) = true.
Proof.
  intros Hp Hb Hne. unfold digits_then_groups.
  rewrite firstn_app, Nat.sub_diag, firstn_all, firstn_0, app_nil_r.
  rewrite skipn_app, Nat.sub_diag, skipn_all, skipn_0. cbn [app].
  rewrite Nat.eqb_refl. fold (all_digits p). rewrite Hp.
  apply Blocks_dot_groups; assumption.
Qed.

Lemma thousandPattern_app p gs :
  p <> [] -> length p <= 3 -> all_digits p = true -> Blocks gs -> gs <> [] ->
  thousandPattern (p ++ gs) = true.
Proof.
  intros Hne Hlen Hp Hb Hgs.
  pose proof (digits_then_groups_app p gs Hp Hb Hgs) as H.
  unfold thousandPattern.
  destruct p as [|a [|b [|c [|d r]]]]; try contradiction;
    simpl length in *; try lia; rewrite H; rewrite ?orb_true_r; reflexivity.
Qed.

Lemma digits_then_groups_dd k s :
  digits_then_groups k s = true -> forallb digit_or_dot s = true.
Proof.
  unfold digits_then_groups. rewrite !andb_true_iff. intros ((_ & Hd) & Hg).
  rewrite <- (firstn_skipn k s), forallb_app.
  rewrite (digits_digit_or_dot _ Hd).
  rewrite (Blocks_digit_or_dot _ (dot_groups_Blocks _ Hg)). reflexivity.
Qed.

Lemma thousandPattern_dd s :
  thousandPattern s = true -> forallb digit_or_dot s = true.
Proof.
  unfold thousandPattern. rewrite !orb_true_iff.
  intros [[H|H]|H]; exact (digits_then_groups_dd _ _ H).
Qed.

Lemma digits_then_groups_head k s :
  0 < k -> digits_then_groups k s = true ->
  exists c r, s = c :: r /\ is_digit c = true.
Proof.
  unfold digits_then_groups. rewrite !andb_true_iff. intros Hk ((Hl & Hd) & _).
  destruct s as [|c r]; destruct k as [|k]; try lia; try discriminate.
  simpl in Hd. apply andb_true_iff in Hd. exists c, r. tauto.
Qed.

Lemma thousandPattern_head s :
  thousandPattern s = true -> exists c r, s = c :: r /\ is_digit c = true.
Proof.
  unfold thousandPattern. rewrite !orb_true_iff.
  intros [[H|H]|H]; (eapply digits_then_groups_head; [|exact H]; lia).
Qed.

Lemma remove_dots_dd_digits s :
  forallb digit_or_dot s = true -> all_digits (remove_dots s) = true.
Proof.
  intros H. unfold all_digits, remove_dots. rewrite forallb_forall in *.
  intros c Hc. apply filter_In in Hc. destruct Hc as [Hin Hnd].
  destruct (digit_or_dot_cases c (H c Hin)) as [[Hd _]|[_ ->]];
    [exact Hd|discriminate].
Qed.

(** ** Grouped digits *)

Section Grouped.

Variables g c : text.
Hypothesis Hgr : grouped g c.

Lemma grouped_dd : forallb digit_or_dot g = true.
Proof.
  destruct Hgr as (p & gs & -> & _ & _ & Hp & Hb & _).
  rewrite forallb_app, (digits_digit_or_dot _ Hp), (Blocks_digit_or_dot _ Hb).
  reflexivity.
Qed.

Lemma grouped_remove_dots : remove_dots g = c.
Proof.
  destruct Hgr as (p & gs & -> & _ & _ & Hp & _ & Hc & _).
  rewrite remove_dots_app, (remove_dots_digits _ Hp). exact Hc.
Qed.

Lemma grouped_head : exists x r, g = x :: r /\ is_digit x = true.
Proof.
  destruct Hgr as (p & gs & -> & Hne & _ & Hp & _).
  destruct p as [|x p]; [contradiction|]. simpl in Hp.
  apply andb_true_iff in Hp. exists x, (p ++ gs). tauto.
Qed.

Lemma grouped_digits : all_digits c = true.
Proof. rewrite <- grouped_remove_dots. apply remove_dots_dd_digits, grouped_dd. Qed.

Lemma grouped_small : length c <= 3 -> g = c.
Proof.
  intros H. destruct Hgr as (p & gs & -> & _ & _ & _ & _ & Hc & Hs & _).
  rewrite (Hs H) in *. simpl in Hc. exact Hc.
Qed.

Lemma grouped_includes_dot : includes c_dot g = Nat.ltb 3 (length c).
Proof.
  destruct (Nat.ltb_spec 3 (length c)) as [Hbig|Hsmall].
  - destruct Hgr as (p & gs & -> & _ & _ & _ & Hb & _ & _ & Hl).
    rewrite includes_app. specialize (Hl Hbig).
    destruct Hb; [contradiction|].
    rewrite includes_cons, N.eqb_refl. apply orb_true_r.
  - rewrite (grouped_small Hsmall).
    pose proof grouped_digits as Hd.
    unfold includes. destruct (existsb (N.eqb c_dot) c) eqn:E; [|reflexivity].
    apply existsb_exists in E. destruct E as (x & Hx & Ex).
    apply N.eqb_eq in Ex. subst x. unfold all_digits in Hd.
    rewrite forallb_forall in Hd. specialize (Hd _ Hx). discriminate.
Qed.

Lemma grouped_pattern : thousandPattern g = Nat.ltb 3 (length c).
Proof.
  destruct (Nat.ltb_spec 3 (length c)) as [Hbig|Hsmall].
  - destruct Hgr as (p & gs & -> & Hne & Hp3 & Hp & Hb & _ & _ & Hl).
    apply thousandPattern_app; auto.
  - rewrite (grouped_small Hsmall). apply thousandPattern_digits, grouped_digits.
Qed.

End Grouped.

(** ** formatIdr through its classification *)

Lemma format_text_classify value o :
  format_text value o =
  minus_if (is_negative value)
  ++ finish o (fst (classify (magnitude value))) (snd (classify (magnitude value))).
Proof.
  unfold format_text, classify, magnitude, is_negative.
  destruct (startsWith c_minus (trim value)); cbn [minus_if app];
    match goal with
    | |- context [includes c_comma ?m] => destruct (includes c_comma m)
    end; try reflexivity;
    match goal with
    | |- context [includes c_dot ?m] => destruct (includes c_dot m)
    end; try reflexivity;
    match goal with
    | |- context [thousandPattern ?m] => destruct (thousandPattern m)
    end; reflexivity.
Qed.

Lemma or_zero_digits x :
  all_digits x = true ->
  or_else x (str "0") <> [] /\ all_digits (or_else x (str "0")) = true.
Proof.
  intros H. destruct x as [|a r]; simpl.
  - split; [discriminate|reflexivity].
  - split; [discriminate|exact H].
Qed.

Lemma classify_digits m :
  fst (classify m) <> [] /\
  all_digits (fst (classify m)) = true /\
  all_digits (dec_digits (snd (classify m))) = true.
Proof.
  unfold classify.
  destruct (includes c_comma m).
  - cbn [fst snd dec_digits].
    destruct (or_zero_digits _ (keep_digits_digits
      (piece 0 (split c_comma (keepFirstCommaOnly (keep_digits_commas m)))))).
    repeat split; try assumption. apply keep_digits_digits.
  - destruct (includes c_dot m).
    + destruct (thousandPattern (remove_spaces m)) eqn:E.
      * cbn [fst snd dec_digits].
        destruct (or_zero_digits _
          (remove_dots_dd_digits _ (thousandPattern_dd _ E))).
        repeat split; assumption.
      * cbn [fst snd dec_digits].
        destruct (or_zero_digits _ (keep_digits_digits
          (piece 0 (split_limit c_dot 2 (remove_spaces m))))).
        repeat split; try assumption. apply keep_digits_digits.
    + cbn [fst snd dec_digits].
      destruct (or_zero_digits _ (keep_digits_digits m)).
      repeat split; assumption.
Qed.

Lemma finish_none o I : finish o I None = finish o I (Some []).
Proof. unfold finish. destruct (decimals o); reflexivity. Qed.

Lemma padEnd_idem k c s : padEnd k c (padEnd k c s) = padEnd k c s.
Proof.
  unfold padEnd. rewrite length_app, repeat_length.
  replace (k - (length s + (k - length s))) with 0 by lia.
  apply app_nil_r.
Qed.

Lemma canon_self_nonempty c : canon c = c -> c <> [].
Proof. intros H. rewrite <- H. apply canon_nonempty. Qed.

(** What [finish] returns is a grouped canonical integer, followed by a
    comma and decimal digits if there are any; finishing these again
    returns the same text. *)
Lemma finish_shape o I R :
  I <> [] -> all_digits I = true -> all_digits (dec_digits R) = true ->
  exists c D,
    canon c = c /\ all_digits c = true /\ all_digits D = true /\
    finish o I R
    = groupThousandsStr c ++ (if is_empty D then [] else c_comma :: D) /\
    finish o c (Some D) = finish o I R.
Proof.
  intros HIne HI HR. unfold finish. destruct (decimals o) as [|z] eqn:Edec.
  - (* auto *)
    assert (Hbase : exists c, canon c = c /\ all_digits c = true /\
              groupThousandsStr c = groupThousandsStr I).
    { exists (canon I). split; [apply canon_idem|].
      split; [apply canon_digits, HI|apply groupThousandsStr_canon]. }
    destruct Hbase as (c & Hc & Hcd & Hg).
    destruct R as [[|x raw]|].
    + exists c, []. rewrite Hg, app_nil_r. repeat split; auto.
    + exists c, (if padZeros o then padEnd 2 c_zero (x :: raw) else x :: raw).
      rewrite Hg. cbn [dec_digits] in HR.
      destruct (padZeros o).
      * assert (E : padEnd 2 c_zero (x :: raw)
                    = x :: (raw ++ repeat c_zero (2 - S (length raw))))
          by reflexivity.
        repeat split; auto.
        -- unfold padEnd. rewrite all_digits_app, HR.
           apply all_digits_repeat_zero.
        -- rewrite padEnd_idem. rewrite E at 1. reflexivity.
      * repeat split; auto.
    + exists c, []. rewrite Hg, app_nil_r. repeat split; auto.
  - (* fixed *)
    set (D0 := match R with Some raw => raw | None => [] end).
    assert (HD0 : all_digits D0 = true) by (destruct R; exact HR).
    destruct (Z.ltb_spec 0 z) as [Hpos|Hnonpos].
    + pose proof (applyFixedDecimals_round I D0 z HI HIne HD0 Hpos) as Hr.
      destruct (applyFixedDecimals I D0 z) as [i d].
      destruct Hr as (Hine & Hid & Hdd & Hlen & _).
      exists (canon i), d.
      assert (Hdne : d <> []).
      { intros E. subst d. simpl in Hlen. lia. }
      assert (Hcan : canon (canon i) = canon i) by apply canon_idem.
      assert (Hcd : all_digits (canon i) = true) by (apply canon_digits, Hid).
      repeat split; auto.
      * rewrite groupThousandsStr_canon. destruct d; [contradiction|reflexivity].
      * unfold applyFixedDecimals.
        rewrite clean_int_digits by (auto; apply canon_nonempty).
        rewrite keep_digits_all by exact Hdd.
        destruct (Z.leb_spec z 0); [lia|].
        rewrite Hlen, Nat.eqb_refl.
        rewrite groupThousandsStr_canon. reflexivity.
    + rewrite (applyFixedDecimals_integer I D0 z HI HIne HD0 Hnonpos).
      set (v := (BigInt.of_digits I
                 + (if (5 <=? digit_value (nth 0 D0 c_zero))%N then 1 else 0))%N).
      exists (BigInt.toString v), [].
      pose proof (BigIntFacts.toString_digits v) as Hvd.
      pose proof (BigIntFacts.toString_nonempty v) as Hvne.
      repeat split; auto.
      * apply BigIntCanon.toString_canon.
      * rewrite app_nil_r. reflexivity.
      * rewrite (applyFixedDecimals_integer (BigInt.toString v) [] z Hvd Hvne
                   eq_refl Hnonpos).
        cbn [nth]. change (digit_value c_zero) with 0%N. cbn [N.leb N.compare].
        rewrite N.add_0_r, BigIntFacts.of_digits_toString. reflexivity.
Qed.

(** ** Formatting a formatted text *)

Lemma signed_text neg body :
  no_space body = true ->
  (exists x r, body = x :: r /\ is_digit x = true) ->
  is_negative (minus_if neg ++ body) = neg /\
  magnitude (minus_if neg ++ body) = body.
Proof.
  intros Hns (x & r & -> & Hx).
  assert (Ht : trim (minus_if neg ++ x :: r) = minus_if neg ++ x :: r).
  { apply trim_no_space. rewrite no_space_app, Hns.
    destruct neg; reflexivity. }
  unfold magnitude, is_negative. rewrite Ht.
  destruct neg; cbn [minus_if app startsWith].
  - rewrite N.eqb_refl. split; reflexivity.
  - rewrite (digit_not_minus x Hx). split; reflexivity.
Qed.

Lemma digits_no_comma s : all_digits s = true -> includes c_comma s = false.
Proof. intros H. apply dd_no_comma, digits_digit_or_dot, H. Qed.

Lemma keep_digits_commas_digits s : all_digits s = true -> keep_digits_commas s = s.
Proof.
  intros H. rewrite dd_keep_digits_commas by (apply digits_digit_or_dot, H).
  apply remove_dots_digits, H.
Qed.

Lemma remove_commas_digits s : all_digits s = true -> remove_commas s = s.
Proof.
  intros H. unfold remove_commas. apply forallb_filter_id.
  unfold all_digits in H. rewrite forallb_forall in *. intros x Hx.
  rewrite (digit_not_comma x (H x Hx)). reflexivity.
Qed.

Section Output.

Variables (c D : text).
Hypothesis Hcanon : canon c = c.
Hypothesis Hc : all_digits c = true.
Hypothesis HD : all_digits D = true.

Let g := groupThousandsStr c.
Let tail := if is_empty D then [] else c_comma :: D.

Lemma output_grouped : grouped g c.
Proof. unfold g. rewrite <- Hcanon at 2. apply groupThousandsStr_grouped, Hc. Qed.

Lemma output_no_space : no_space (g ++ tail) = true.
Proof.
  rewrite no_space_app, (dd_no_space g (grouped_dd g c output_grouped)).
  unfold tail. destruct D as [|x r]; [reflexivity|].
  cbn [is_empty andb]. change (c_comma :: x :: r) with ([c_comma] ++ x :: r).
  rewrite no_space_app, (digits_no_space _ HD). reflexivity.
Qed.

Lemma output_head : exists x r, g ++ tail = x :: r /\ is_digit x = true.
Proof.
  destruct (grouped_head g c output_grouped) as (x & r & E & Hx).
  exists x, (r ++ tail). rewrite E. split; [reflexivity|exact Hx].
Qed.

(** The classification of a formatted magnitude gives back its digits. *)
Lemma classify_output :
  classify (g ++ tail) = (c, if is_empty D then None else Some D).
Proof.
  pose proof output_grouped as Hgr.
  pose proof (grouped_dd g c Hgr) as Hdd.
  pose proof (canon_self_nonempty c Hcanon) as Hne.
  unfold classify, tail. destruct D as [|x r] eqn:ED; cbn [is_empty].
  - rewrite app_nil_r. rewrite (dd_no_comma g Hdd).
    rewrite (grouped_includes_dot g c Hgr), (remove_spaces_no_space g (dd_no_space g Hdd)).
    rewrite (grouped_pattern g c Hgr).
    destruct (Nat.ltb 3 (length c)).
    + rewrite (grouped_remove_dots g c Hgr), or_else_nonempty by exact Hne.
      reflexivity.
    + rewrite (dd_keep_digits g Hdd), (grouped_remove_dots g c Hgr).
      rewrite or_else_nonempty by exact Hne. reflexivity.
  - rewrite includes_app, includes_cons, N.eqb_refl, orb_true_r.
    assert (Hk : keep_digits_commas (g ++ c_comma :: x :: r)
                 = c ++ c_comma :: x :: r).
    { unfold keep_digits_commas. rewrite filter_app.
      fold (keep_digits_commas g).
      rewrite (dd_keep_digits_commas g Hdd), (grouped_remove_dots g c Hgr).
      f_equal. cbn [filter]. change (is_digit c_comma || N.eqb c_comma c_comma)
        with true. cbv iota. f_equal.
      apply (keep_digits_commas_digits (x :: r) HD). }
    rewrite Hk.
    assert (Hinc : includes c_comma (c ++ c_comma :: x :: r) = true).
    { rewrite includes_app, includes_cons, N.eqb_refl. apply orb_true_r. }
    destruct (comma_pieces _ Hinc) as [P0 P1]. cbv zeta in P0, P1.
    rewrite P0, P1.
    rewrite before_app, after_app by (apply digits_no_comma, Hc).
    rewrite (remove_commas_digits _ HD).
    rewrite (keep_digits_all c Hc), (keep_digits_all _ HD).
    rewrite or_else_nonempty by exact Hne. reflexivity.
Qed.

Lemma format_text_output neg o :
  format_text (minus_if neg ++ g ++ tail) o
  = minus_if neg ++ finish o c (Some D).
Proof.
  rewrite format_text_classify.
  destruct (signed_text neg (g ++ tail) output_no_space output_head) as [-> ->].
  rewrite classify_output. cbn [fst snd].
  destruct D; cbn [is_empty]; [apply f_equal, finish_none|reflexivity].
Qed.

End Output.

Lemma format_text_nonempty value o : format_text value o <> [].
Proof.
  rewrite format_text_classify.
  destruct (classify_digits (magnitude value)) as (H1 & H2 & H3).
  destruct (finish_shape o _ _ H1 H2 H3) as (c & D & Hc & Hcd & HDd & E & _).
  rewrite E.
  destruct (output_head c D Hc Hcd) as (x & r & Ex & _).
  rewrite Ex. destruct (minus_if (is_negative value)); discriminate.
Qed.

Lemma format_text_idempotent value o :
  format_text (format_text value o) o = format_text value o.
Proof.
  rewrite (format_text_classify value o).
  destruct (classify_digits (magnitude value)) as (H1 & H2 & H3).
  destruct (finish_shape o _ _ H1 H2 H3) as (c & D & Hc & Hcd & HDd & E & Hagain).
  rewrite E.
  rewrite (format_text_output c D Hc Hcd HDd).
  rewrite Hagain, E. reflexivity.
Qed.

(** ** The parse path *)

Lemma in_before sep s c : In c (before sep s) -> In c s /\ N.eqb c sep = false.
Proof.
  induction s as [|x r IH]; [intros []|].
  cbn [before]. destruct (N.eqb x sep) eqn:E; [intros []|].
  intros [->|H].
  - split; [left; reflexivity|exact E].
  - destruct (IH H). split; [right; assumption|assumption].
Qed.

Lemma in_after sep s c : In c (after sep s) -> In c s.
Proof.
  induction s as [|x r IH]; [intros []|].
  cbn [after]. destruct (N.eqb x sep); intros H; right; auto.
Qed.

Lemma after_no_sep sep s : includes sep s = false -> after sep s = [].
Proof.
  induction s as [|c r IH]; [reflexivity|].
  rewrite includes_cons. cbn [after]. intros H.
  apply orb_false_iff in H. destruct H as [Hc Hr].
  rewrite Hc. apply IH, Hr.
Qed.

Lemma filter_filter_in (f g h : char -> bool) s :
  (forall c, In c s -> f c && g c = h c) ->
  filter g (filter f s) = filter h s.
Proof.
  induction s as [|c r IH]; intros H; [reflexivity|].
  simpl. pose proof (H c (or_introl eq_refl)) as Hc.
  assert (Hr : forall x, In x r -> f x && g x = h x)
    by (intros x Hx; apply H; right; exact Hx).
  destruct (f c); simpl in *.
  - rewrite Hc. destruct (h c); rewrite (IH Hr); reflexivity.
  - rewrite <- Hc. apply IH, Hr.
Qed.

Lemma clean_before_digits s :
  remove_dots (keep_digits_dots_commas (before c_comma s))
  = keep_digits (before c_comma s).
Proof.
  apply filter_filter_in. intros c Hc.
  destruct (in_before _ _ _ Hc) as [_ Hne]. rewrite Hne.
  destruct (is_digit c) eqn:Ed.
  - rewrite (digit_not_dot c Ed). reflexivity.
  - simpl. destruct (N.eqb c c_dot); reflexivity.
Qed.

Lemma clean_after_digits s :
  remove_dots (remove_commas (keep_digits_dots_commas s)) = keep_digits s.
Proof.
  unfold remove_dots.
  rewrite (filter_filter_in
    (fun c => is_digit c || N.eqb c c_dot || N.eqb c c_comma)
    (fun c => negb (N.eqb c c_comma))
    (fun c => is_digit c || N.eqb c c_dot)).
  - apply filter_filter_in. intros c _.
    destruct (is_digit c) eqn:Ed.
    + rewrite (digit_not_dot c Ed). reflexivity.
    + simpl. destruct (N.eqb c c_dot); reflexivity.
  - intros c _. destruct (is_digit c) eqn:Ed.
    + rewrite (digit_not_comma c Ed). reflexivity.
    + simpl. destruct (N.eqb_spec c c_dot) as [->|_]; [reflexivity|].
      simpl. destruct (N.eqb c c_comma); reflexivity.
Qed.

Lemma replace_first_comma_none s :
  includes c_comma s = false -> replace_first_comma s = s.
Proof.
  induction s as [|c r IH]; [reflexivity|].
  rewrite includes_cons. intros H. apply orb_false_iff in H.
  destruct H as [Hc Hr]. cbn [replace_first_comma]. rewrite Hc.
  f_equal. apply IH, Hr.
Qed.

Lemma replace_first_comma_app a b :
  includes c_comma a = false ->
  replace_first_comma (a ++ c_comma :: b) = a ++ c_dot :: b.
Proof.
  induction a as [|c r IH]; intros H; [reflexivity|].
  rewrite includes_cons in H. apply orb_false_iff in H.
  destruct H as [Hc Hr]. simpl. rewrite Hc. f_equal. apply IH, Hr.
Qed.

Lemma digits_no_dot s : all_digits s = true -> includes c_dot s = false.
Proof.
  intros H. unfold includes.
  destruct (existsb (N.eqb c_dot) s) eqn:E; [|reflexivity].
  apply existsb_exists in E. destruct E as (x & Hx & Ex).
  apply N.eqb_eq in Ex. subst x. unfold all_digits in H.
  rewrite forallb_forall in H. specialize (H _ Hx). discriminate.
Qed.

(** The normalized text of [parseIdr]: the digits before the first comma,
    then, if there is a comma, a dot and the digits after it. *)
Lemma normalized_spec s1 :
  replace_first_comma
    (remove_dots (keepFirstCommaOnly (keep_digits_dots_commas s1)))
  = keep_digits (before c_comma s1)
    ++ (if includes c_comma s1
        then c_dot :: keep_digits (after c_comma s1) else []).
Proof.
  rewrite keepFirstCommaOnly_spec.
  unfold keep_digits_dots_commas at 1.
  rewrite includes_filter by reflexivity.
  destruct (includes c_comma s1) eqn:Hc.
  - rewrite remove_dots_app.
    change (c_comma :: ?x) with ([c_comma] ++ x).
    rewrite remove_dots_app. change (remove_dots [c_comma]) with [c_comma].
    cbn [app].
    unfold keep_digits_dots_commas at 1.
    rewrite before_filter by reflexivity.
    fold (keep_digits_dots_commas (before c_comma s1)).
    rewrite clean_before_digits.
    unfold keep_digits_dots_commas at 1.
    rewrite after_filter by reflexivity.
    fold (keep_digits_dots_commas (after c_comma s1)).
    rewrite clean_after_digits.
    apply replace_first_comma_app.
    apply digits_no_comma, keep_digits_digits.
  - rewrite app_nil_r.
    rewrite <- (before_no_sep c_comma s1 Hc) at 1.
    rewrite clean_before_digits.
    apply replace_first_comma_none.
    apply digits_no_comma, keep_digits_digits.
Qed.

Lemma keep_digits_split sep s :
  is_digit sep = false ->
  keep_digits s = keep_digits (before sep s) ++ keep_digits (after sep s).
Proof.
  intros Hsep. induction s as [|c r IH]; [reflexivity|].
  cbn [before after]. destruct (N.eqb_spec c sep) as [->|Hne].
  - simpl. rewrite Hsep. reflexivity.
  - simpl. destruct (is_digit c); rewrite IH; reflexivity.
Qed.

Lemma keep_digits_remove_dots s : keep_digits (remove_dots s) = keep_digits s.
Proof.
  apply filter_filter. intros c Hc. rewrite (digit_not_dot c Hc). reflexivity.
Qed.

Lemma cleaned_empty_digits s :
  keep_digits_dots_commas s = [] -> keep_digits s = [].
Proof.
  intros H. unfold keep_digits. rewrite <- (filter_filter
    (fun c => is_digit c || N.eqb c c_dot || N.eqb c c_comma) is_digit s).
  - fold (keep_digits_dots_commas s). rewrite H. reflexivity.
  - intros c Hc. rewrite Hc. reflexivity.
Qed.

Lemma normalized_pieces I0 D0 (hc : bool) :
  all_digits I0 = true -> all_digits D0 = true ->
  let norm := I0 ++ (if hc then c_dot :: D0 else []) in
  keep_digits (piece 0 (split c_dot norm)) = I0 /\
  keep_digits (piece 1 (split c_dot norm)) = (if hc then D0 else []).
Proof.
  intros HI HD norm. unfold norm.
  rewrite piece_0_split, piece_1_split.
  destruct hc.
  - rewrite includes_app, includes_cons, N.eqb_refl, orb_true_r.
    rewrite before_app, after_app by (apply digits_no_dot, HI).
    rewrite before_no_sep by (apply digits_no_dot, HD).
    split; apply keep_digits_all; assumption.
  - rewrite app_nil_r. rewrite (digits_no_dot I0 HI).
    rewrite before_no_sep by (apply digits_no_dot, HI).
    split; [apply keep_digits_all, HI|reflexivity].
Qed.

Lemma head_digit_not_lone_dot (x : char) (r : text) :
  is_digit x = true -> x :: r <> [c_dot].
Proof.
  intros Hx E. injection E as -> _. discriminate.
Qed.

Lemma parse_text_spec value mode :
  parse_text value mode
  = parse_spec (is_negative value) (magnitude value) mode.
Proof.
  unfold parse_text, parse_spec.
  change (if startsWith c_minus (trim value)
          then slice_from 1 (trim value) else trim value)
    with (magnitude value).
  change (startsWith c_minus (trim value)) with (is_negative value).
  set (m := magnitude value). set (neg := is_negative value).
  rewrite normalized_spec.
  pose proof (keep_digits_split c_comma m eq_refl) as Hsplit.
  pose proof (keep_digits_digits (before c_comma m)) as HI.
  pose proof (keep_digits_digits (after c_comma m)) as HD.
  assert (Hnc : includes c_comma m = false -> keep_digits (after c_comma m) = []).
  { intros H. rewrite (after_no_sep _ _ H). reflexivity. }
  destruct (normalized_pieces _ _ (includes c_comma m) HI HD) as [P0 P1].
  cbv zeta in P0, P1.
  set (I0 := keep_digits (before c_comma m)) in *.
  set (D0 := keep_digits (after c_comma m)) in *.
  destruct (keep_digits_dots_commas m) as [|k ks] eqn:Ek.
  - apply cleaned_empty_digits in Ek. rewrite Ek in Hsplit.
    symmetry in Hsplit. apply app_eq_nil in Hsplit.
    destruct Hsplit as [-> ->]. reflexivity.
  - cbn [is_empty]. rewrite P0, P1.
    destruct I0 as [|i0 is0].
    + destruct (includes c_comma m).
      * destruct D0 as [|d0 ds0].
        -- cbn [app is_empty]. destruct (list_eq_dec N.eq_dec [c_dot] [c_dot]);
             [reflexivity|contradiction].
        -- cbn [app is_empty andb].
           destruct (list_eq_dec N.eq_dec (c_dot :: d0 :: ds0) [c_dot]);
             [discriminate|]. destruct neg, mode; reflexivity.
      * rewrite (Hnc eq_refl). reflexivity.
    + cbn [app is_empty andb]. simpl in HI. apply andb_true_iff in HI.
      destruct HI as [Hi0 _].
      match goal with
      | |- context [list_eq_dec N.eq_dec ?a ?b] =>
          destruct (list_eq_dec N.eq_dec a b) as [E|_]
      end.
      * exfalso. revert E. apply head_digit_not_lone_dot, Hi0.
      * destruct (includes c_comma m).
        -- destruct neg, mode; reflexivity.
        -- rewrite (Hnc eq_refl). destruct neg, mode; reflexivity.
Qed.

(** ** The classification, branch by branch *)

Lemma keep_digits_cleaned_commas s : keep_digits (keep_digits_commas s) = keep_digits s.
Proof. apply filter_filter. intros c Hc. rewrite Hc. reflexivity. Qed.

Lemma keep_digits_cleaned s : keep_digits (keep_digits_dots_commas s) = keep_digits s.
Proof. apply filter_filter. intros c Hc. rewrite Hc. reflexivity. Qed.

Lemma keep_digits_remove_commas s : keep_digits (remove_commas s) = keep_digits s.
Proof.
  apply filter_filter. intros c Hc. rewrite (digit_not_comma c Hc). reflexivity.
Qed.

Lemma keep_digits_remove_spaces s : keep_digits (remove_spaces s) = keep_digits s.
Proof.
  apply filter_filter. intros c Hc. rewrite (digit_not_space c Hc). reflexivity.
Qed.

Lemma classify_spec m :
  classify m =
  if includes c_comma m then
    (or_else (keep_digits (before c_comma m)) (str "0"),
     Some (keep_digits (after c_comma m)))
  else if includes c_dot m then
    if thousandPattern (remove_spaces m)
    then (or_else (remove_dots (remove_spaces m)) (str "0"), None)
    else (or_else (keep_digits (before c_dot m)) (str "0"),
          Some (keep_digits (before c_dot (after c_dot m))))
  else (or_else (keep_digits m) (str "0"), None).
Proof.
  unfold classify. destruct (includes c_comma m) eqn:Hc.
  - assert (Hk : includes c_comma (keep_digits_commas m) = true).
    { unfold keep_digits_commas. rewrite includes_filter by reflexivity.
      exact Hc. }
    destruct (comma_pieces _ Hk) as [P0 P1]. cbv zeta in P0, P1.
    rewrite P0, P1. unfold keep_digits_commas at 1 2.
    rewrite before_filter, after_filter by reflexivity.
    fold (keep_digits_commas (before c_comma m)).
    fold (keep_digits_commas (after c_comma m)).
    rewrite keep_digits_remove_commas, !keep_digits_cleaned_commas.
    reflexivity.
  - destruct (includes c_dot m) eqn:Hd; [|reflexivity].
    destruct (thousandPattern (remove_spaces m)); [reflexivity|].
    rewrite !piece_split_limit by lia.
    rewrite piece_0_split, piece_1_split.
    unfold remove_spaces at 2.
    rewrite includes_filter by reflexivity. rewrite Hd.
    unfold remove_spaces.
    rewrite after_filter, !before_filter by reflexivity.
    fold (remove_spaces (before c_dot m)).
    fold (remove_spaces (before c_dot (after c_dot m))).
    rewrite !keep_digits_remove_spaces. reflexivity.
Qed.

Lemma keep_digits_nil_sub s t :
  keep_digits s = [] -> (forall c, In c t -> In c s) -> keep_digits t = [].
Proof.
  intros Hs Hsub. destruct (keep_digits t) as [|x r] eqn:E; [reflexivity|].
  assert (Hx : In x (keep_digits t)) by (rewrite E; left; reflexivity).
  apply filter_In in Hx. destruct Hx as [Hin Hd].
  assert (Hx : In x (keep_digits s)).
  { apply filter_In. split; [apply Hsub, Hin|exact Hd]. }
  rewrite Hs in Hx. destruct Hx.
Qed.

(** A text without digits is classified as the integer "0" with no
    decimal digit. *)
Lemma classify_no_digits m :
  keep_digits m = [] ->
  fst (classify m) = str "0" /\ dec_digits (snd (classify m)) = [].
Proof.
  intros H. rewrite classify_spec.
  assert (Hb : forall sep, keep_digits (before sep m) = []).
  { intros sep. apply (keep_digits_nil_sub m _ H).
    intros c Hc. apply (in_before sep m c Hc). }
  assert (Ha : forall sep, keep_digits (after sep m) = []).
  { intros sep. apply (keep_digits_nil_sub m _ H).
    intros c Hc. apply (in_after sep m c Hc). }
  destruct (includes c_comma m).
  - cbn [fst snd dec_digits]. rewrite Hb, Ha. split; reflexivity.
  - destruct (includes c_dot m).
    + destruct (thousandPattern (remove_spaces m)) eqn:E.
      * exfalso. destruct (thousandPattern_head _ E) as (x & r & Ex & Hx).
        assert (Hin : In x (keep_digits m)).
        { apply filter_In. split; [|exact Hx].
          assert (Hin : In x (remove_spaces m)) by (rewrite Ex; left; reflexivity).
          apply filter_In in Hin. tauto. }
        rewrite H in Hin. destruct Hin.
      * cbn [fst snd dec_digits]. rewrite Hb.
        rewrite (keep_digits_nil_sub (after c_dot m) _ (Ha c_dot)).
        -- split; reflexivity.
        -- intros c Hc. apply (in_before _ _ _ Hc).
    + cbn [fst snd dec_digits]. rewrite H. split; reflexivity.
Qed.

Lemma finish_auto_zero o R :
  decimals o = Auto -> dec_digits R = [] -> finish o (str "0") R = str "0".
Proof.
  intros Hd HR. unfold finish. rewrite Hd.
  destruct R as [[|x r]|]; try reflexivity. discriminate.
Qed.

Lemma in_magnitude value c : In c (magnitude value) -> In c value.
Proof.
  intros Hc. unfold magnitude in Hc.
  assert (Hsub : forall x, In x (trim value) -> In x value).
  { intros x Hx. unfold trim in Hx.
    destruct (trimStart_decomp value) as (w & Hw & _).
    destruct (trimEnd_decomp (trimStart value)) as (w' & Hw' & _).
    rewrite Hw, Hw'. apply in_or_app. right. apply in_or_app. left. exact Hx. }
  destruct (is_negative value); [|apply Hsub, Hc].
  apply Hsub. unfold slice_from in Hc.
  destruct (trim value); [destruct Hc|right; exact Hc].
Qed.

Lemma magnitude_no_digits value :
  keep_digits value = [] -> keep_digits (magnitude value) = [].
Proof.
  intros Hk. apply (keep_digits_nil_sub value _ Hk). apply in_magnitude.
Qed.

Lemma format_text_no_digits value o :
  decimals o = Auto -> keep_digits value = [] ->
  format_text value o = minus_if (is_negative value) ++ str "0".
Proof.
  intros Hd Hk. rewrite format_text_classify.
  pose proof (magnitude_no_digits value Hk) as Hm.
  destruct (classify_no_digits _ Hm) as [-> HR].
  rewrite (finish_auto_zero o _ Hd HR). reflexivity.
Qed.

Lemma parse_text_no_digits value mode :
  keep_digits value = [] -> parse_text value mode = PNull.
Proof.
  intros Hk. rewrite parse_text_spec. unfold parse_spec.
  pose proof (magnitude_no_digits value Hk) as Hm.
  rewrite (keep_digits_nil_sub _ _ Hm)
    by (intros c Hc; apply (in_before _ _ _ Hc)).
  rewrite (keep_digits_nil_sub _ _ Hm)
    by (intros c Hc; apply (in_after _ _ _ Hc)).
  reflexivity.
Qed.

(** * The claims of the specification *)

Lemma formatIdr_text value o :
  value <> [] -> formatIdr (VStr value) o = format_text value o.
Proof. intros H. destruct value; [contradiction|reflexivity]. Qed.

Lemma formatIdr_input v value o :
  input_text v = Some value -> formatIdr v o = format_text value o.
Proof.
  destruct v as [|s|s|fx]; cbn [input_text formatIdr].
  - discriminate.
  - destruct (is_empty s); [discriminate|]. intros H. injection H as ->.
    reflexivity.
  - intros H. injection H as ->. reflexivity.
  - destruct (is_empty (FixedIdr_toString fx)); [discriminate|].
    intros H. injection H as ->. reflexivity.
Qed.

Lemma parseIdr_text_spec value mode :
  parseIdr (VStr value) mode
  = parse_spec (is_negative value) (magnitude value) mode.
Proof.
  destruct value as [|c r]; [reflexivity|].
  cbn [parseIdr is_empty]. apply parse_text_spec.
Qed.

Lemma groupThousandsStr_no_comma digits :
  all_digits digits = true -> includes c_comma (groupThousandsStr digits) = false.
Proof.
  intros H. apply dd_no_comma.
  apply (grouped_dd _ _ (groupThousandsStr_grouped digits H)).
Qed.

Lemma minus_if_no_comma b : includes c_comma (minus_if b) = false.
Proof. destruct b; reflexivity. Qed.

(** ** Rounding to a fixed count of decimals *)

Lemma format_text_fixed_positive value o z :
  decimals o = Fixed z -> (0 < z)%Z ->
  exists i d,
    i <> [] /\ all_digits i = true /\ all_digits d = true /\
    length d = Z.to_nat z /\
    BigInt.of_digits (i ++ d)
    = round_half_up_units (fst (classify (magnitude value)))
        (dec_digits (snd (classify (magnitude value)))) (Z.to_nat z) /\
    format_text value o
    = minus_if (is_negative value) ++ groupThousandsStr i ++ c_comma :: d.
Proof.
  intros Hd Hz. rewrite format_text_classify.
  destruct (classify_digits (magnitude value)) as (H1 & H2 & H3).
  set (I := fst (classify (magnitude value))) in *.
  set (R := snd (classify (magnitude value))) in *.
  unfold finish. rewrite Hd.
  change (match R with Some raw => raw | None => [] end) with (dec_digits R).
  pose proof (applyFixedDecimals_round I (dec_digits R) z H2 H1 H3 Hz) as Hr.
  destruct (applyFixedDecimals I (dec_digits R) z) as [i d].
  destruct Hr as (Hi & Hid & Hdd & Hlen & Hval).
  exists i, d. destruct (Z.ltb_spec 0 z); [|lia].
  repeat split; assumption.
Qed.

Lemma format_text_fixed_zero value o z :
  decimals o = Fixed z -> (z <= 0)%Z ->
  format_text value o
  = minus_if (is_negative value)
    ++ groupThousandsStr
         (BigInt.toString
            (BigInt.of_digits (fst (classify (magnitude value)))
             + (if 5 <=? digit_value
                           (nth 0 (dec_digits (snd (classify (magnitude value))))
                              c_zero)
                then 1 else 0))%N).
Proof.
  intros Hd Hz. rewrite format_text_classify.
  destruct (classify_digits (magnitude value)) as (H1 & H2 & H3).
  set (I := fst (classify (magnitude value))) in *.
  set (R := snd (classify (magnitude value))) in *.
  unfold finish. rewrite Hd.
  change (match R with Some raw => raw | None => [] end) with (dec_digits R).
  rewrite (applyFixedDecimals_integer I (dec_digits R) z H2 H1 H3 Hz).
  destruct (Z.ltb_spec 0 z); [lia|reflexivity].
Qed.

Lemma round_half_up_units_zero I D :
  round_half_up_units I D 0
  = (BigInt.of_digits I
     + (if 5 <=? digit_value (nth 0 D c_zero) then 1 else 0))%N.
Proof.
  unfold round_half_up_units. cbn [firstn N.of_nat].
  change (BigInt.of_digits []) with 0%N. rewrite N.pow_0_r. lia.
Qed.

(** C2 — with [decimals = N], N a non-negative integer, [formatIdr] writes
    the classified digits (I, D) rounded half up on the digit of D at
    position N, the carry going through the whole integer part: the output
    is the sign, the grouped integer digits of the rounded number and,
    unless N is 0, a comma and exactly N decimal digits.  With N = 0 there
    is no comma, and the integer is one more when the first decimal digit
    is 5 or more. *)
Theorem formatIdr_fixed_decimals_round v value o z :
  input_text v = Some value -> decimals o = Fixed z -> (0 <= z)%Z ->
  formatIdr v o
  = spec_fixed_text (is_negative value)
      (fst (classify (magnitude value)))
      (dec_digits (snd (classify (magnitude value)))) (Z.to_nat z)
  /\ length (after c_comma (formatIdr v o)) = Z.to_nat z
  /\ (z = 0%Z ->
      includes c_comma (formatIdr v o) = false /\
      formatIdr v o
      = minus_if (is_negative value)
        ++ groupThousandsStr
             (BigInt.toString
                (BigInt.of_digits (fst (classify (magnitude value)))
                 + (if 5 <=? digit_value
                               (nth 0 (dec_digits
                                         (snd (classify (magnitude value))))
                                  c_zero)
                    then 1 else 0))%N)).
Proof.
  intros Hin Hd Hz. rewrite (formatIdr_input v value o Hin).
  set (I := fst (classify (magnitude value))).
  set (D := dec_digits (snd (classify (magnitude value)))).
  destruct (Z.eq_dec z 0) as [->|Hnz].
  - pose proof (format_text_fixed_zero value o 0 Hd ltac:(lia)) as E.
    fold I D in E.
    assert (Hnc : includes c_comma (format_text value o) = false).
    { rewrite E, includes_app, minus_if_no_comma.
      apply groupThousandsStr_no_comma, BigIntFacts.toString_digits. }
    repeat split.
    + rewrite E. unfold spec_fixed_text, render_units.
      rewrite round_half_up_units_zero. cbn [Z.to_nat N.of_nat Nat.eqb].
      rewrite N.pow_0_r, N.div_1_r, app_nil_r. reflexivity.
    + rewrite (after_no_sep _ _ Hnc). reflexivity.
    + exact Hnc.
    + exact E.
  - destruct (format_text_fixed_positive value o z Hd ltac:(lia))
      as (i & d & Hi & Hid & Hdd & Hlen & Hval & E).
    fold I D in Hval.
    assert (Hn : 0 < Z.to_nat z) by lia.
    repeat split.
    + rewrite E. unfold spec_fixed_text. rewrite <- Hval.
      rewrite (render_units_digits i d (Z.to_nat z) Hi Hid Hdd Hlen Hn).
      rewrite groupThousandsStr_canon.
      destruct (Nat.eqb_spec (Z.to_nat z) 0); [lia|reflexivity].
    + rewrite E, app_assoc, after_app; [exact Hlen|].
      rewrite includes_app, minus_if_no_comma.
      apply groupThousandsStr_no_comma, Hid.
    + contradiction.
    + contradiction.
Qed.

Lemma formatIdr_fixed_decimals_round_witness :
  input_text (VStr (str "999,99")) = Some (str "999,99") /\
  decimals (mkFormat (Fixed 1) false) = Fixed 1 /\
  (0 <= 1)%Z /\
  formatIdr (VStr (str "999,99")) (mkFormat (Fixed 1) false)
  = spec_fixed_text false (str "999") (str "99") 1.
Proof.
  split; [reflexivity|]. split; [reflexivity|]. split; [lia|].
  exact (proj1 (formatIdr_fixed_decimals_round (VStr (str "999,99"))
                  (str "999,99") (mkFormat (Fixed 1) false) 1
                  eq_refl eq_refl ltac:(lia))).
Defined.

Example rounding_carry_999 :
  formatIdr (VStr (str "999,99")) (mkFormat (Fixed 1) false) = str "1.000,0".
Proof. vm_compute. reflexivity. Qed.

Example rounding_carry_9 :
  formatIdr (VStr (str "9,99")) (mkFormat (Fixed 1) false) = str "10,0".
Proof. vm_compute. reflexivity. Qed.

Example rounding_to_integer :
  formatIdr (VStr (str "1999,5")) (mkFormat (Fixed 0) false) = str "2.000".
Proof. vm_compute. reflexivity. Qed.

(** ** Decimals as typed, padded to two digits *)

(** C8 — with [decimals = "auto"] and [padZeros = true], a present decimal
    part is written after a comma with zeros appended up to two digits;
    when the classification has no decimal digit the output is the grouped
    integer alone and contains no comma. *)
Theorem formatIdr_auto_padZeros v value o :
  input_text v = Some value -> decimals o = Auto -> padZeros o = true ->
  formatIdr v o
  = minus_if (is_negative value)
    ++ groupThousandsStr (fst (classify (magnitude value)))
    ++ (if is_empty (dec_digits (snd (classify (magnitude value)))) then []
        else c_comma :: dec_digits (snd (classify (magnitude value)))
             ++ repeat c_zero
                  (2 - length (dec_digits (snd (classify (magnitude value))))))
  /\ (dec_digits (snd (classify (magnitude value))) = [] ->
      includes c_comma (formatIdr v o) = false).
Proof.
  intros Hin Hd Hp. rewrite (formatIdr_input v value o Hin).
  rewrite format_text_classify.
  destruct (classify_digits (magnitude value)) as (H1 & H2 & H3).
  set (I := fst (classify (magnitude value))) in *.
  set (R := snd (classify (magnitude value))) in *.
  unfold finish. rewrite Hd, Hp.
  destruct R as [[|x r]|]; cbn [dec_digits is_empty].
  - rewrite app_nil_r. split; [reflexivity|]. intros _.
    rewrite includes_app, minus_if_no_comma.
    apply groupThousandsStr_no_comma, H2.
  - split; [reflexivity|discriminate].
  - rewrite app_nil_r. split; [reflexivity|]. intros _.
    rewrite includes_app, minus_if_no_comma.
    apply groupThousandsStr_no_comma, H2.
Qed.

Lemma formatIdr_auto_padZeros_witness :
  input_text (VStr (str "1050,5")) = Some (str "1050,5") /\
  decimals (mkFormat Auto true) = Auto /\
  padZeros (mkFormat Auto true) = true /\
  formatIdr (VStr (str "1050,5")) (mkFormat Auto true)
  = [] ++ groupThousandsStr (str "1050") ++ c_comma :: str "5" ++ [c_zero].
Proof.
  split; [reflexivity|]. split; [reflexivity|]. split; [reflexivity|].
  exact (proj1 (formatIdr_auto_padZeros (VStr (str "1050,5")) (str "1050,5")
                  (mkFormat Auto true) eq_refl eq_refl eq_refl)).
Defined.

Example padZeros_example :
  formatIdr (VStr (str "1050,5")) (mkFormat Auto true) = str "1.050,50".
Proof. vm_compute. reflexivity. Qed.

Example padZeros_no_decimals :
  formatIdr (VStr (str "1050")) (mkFormat Auto true) = str "1.050".
Proof. vm_compute. reflexivity. Qed.

(** ** The parse path ignores dots *)

(** C4 — on the parse path a dot never counts, whatever its place, and the
    first comma is the decimal marker: for a string, and for a number
    through its rendering, the result of [parseIdr] is the one of
    [parse_spec], made of the digits before the first comma and the digits
    after it, which looks neither at dots nor at the thousands pattern; so
    "12.34" is parsed as 1234 with scale 0, not as 12.34. *)
Theorem parseIdr_dots_removed value mode :
  parseIdr (VStr value) mode
  = parse_spec (is_negative value) (magnitude value) mode
  /\ parseIdr (VNum value) mode
     = parse_spec (is_negative value) (magnitude value) mode
  /\ parseIdr (VStr (str "12.34")) ModeFixed
     = PFixed (mkFixed SignPlus 1234 0)
  /\ parseIdr (VStr (str "12.34")) ModeNumber = PNumber (str "1234").
Proof.
  split; [apply parseIdr_text_spec|].
  split; [apply parse_text_spec|].
  split; vm_compute; reflexivity.
Qed.

Example parse_dot_is_not_decimal :
  parseIdr (VStr (str "12.34")) ModeFixed = PFixed (mkFixed SignPlus 1234 0)
  /\ parseIdr (VStr (str "12.34")) ModeNumber = PNumber (str "1234").
Proof. split; vm_compute; reflexivity. Qed.

Example parse_comma_is_decimal :
  parseIdr (VStr (str "1.234.567,89")) ModeFixed
  = PFixed (mkFixed SignPlus 123456789 2).
Proof. vm_compute. reflexivity. Qed.

(** ** Texts without digits *)

Lemma is_space_minus : is_space c_minus = false.
Proof. reflexivity. Qed.

(** C10 — an input that starts with "-" and has no digit after it is
    formatted as "-0" (decimals as typed), while [parseIdr] has no value
    for it. *)
Theorem formatIdr_minus_zero r o mode :
  keep_digits r = [] -> decimals o = Auto ->
  formatIdr (VStr (c_minus :: r)) o = str "-0"
  /\ parseIdr (VStr (c_minus :: r)) mode = PNull.
Proof.
  intros Hk Hd.
  assert (Hall : keep_digits (c_minus :: r) = []) by exact Hk.
  split.
  - cbn [formatIdr is_empty].
    rewrite (format_text_no_digits _ o Hd Hall).
    unfold is_negative. rewrite (trim_cons c_minus r is_space_minus).
    reflexivity.
  - cbn [parseIdr is_empty]. apply parse_text_no_digits, Hall.
Qed.

Lemma formatIdr_minus_zero_witness :
  keep_digits (str "abc") = [] /\
  decimals default_format = Auto /\
  formatIdr (VStr (c_minus :: str "abc")) default_format = str "-0" /\
  parseIdr (VStr (c_minus :: str "abc")) ModeNumber = PNull.
Proof.
  split; [reflexivity|]. split; [reflexivity|].
  exact (formatIdr_minus_zero (str "abc") default_format ModeNumber
           eq_refl eq_refl).
Defined.

(** C7, as stated, fails: the text "-" is not empty and has no digit, and
    is formatted as "-0", not "0". *)
Lemma garbage_formats_zero_counterexample :
  str "-" <> [] /\ keep_digits (str "-") = [] /\
  formatIdr (VStr (str "-")) default_format <> str "0".
Proof.
  split; [discriminate|]. split; [reflexivity|].
  vm_compute. discriminate.
Qed.

(** C7, amended — for a non-empty text without digits [parseIdr] has no
    value and [formatIdr] (decimals as typed) writes "0", after a "-" when
    the trimmed text starts with one; an absent or empty input gives the
    empty text and no value. *)
Theorem formatIdr_garbage_zero value o mode :
  value <> [] -> keep_digits value = [] -> decimals o = Auto ->
  parseIdr (VStr value) mode = PNull
  /\ formatIdr (VStr value) o = minus_if (is_negative value) ++ str "0"
  /\ formatIdr VNull o = [] /\ formatIdr (VStr []) o = []
  /\ parseIdr VNull mode = PNull /\ parseIdr (VStr []) mode = PNull.
Proof.
  intros Hne Hk Hd. repeat split.
  - destruct value; [contradiction|]. cbn [parseIdr is_empty].
    apply parse_text_no_digits, Hk.
  - rewrite (formatIdr_text value o Hne).
    apply format_text_no_digits; assumption.
Qed.

Lemma formatIdr_garbage_zero_witness :
  str "abc" <> [] /\ keep_digits (str "abc") = [] /\
  decimals default_format = Auto /\
  parseIdr (VStr (str "abc")) ModeNumber = PNull /\
  formatIdr (VStr (str "abc")) default_format = str "0".
Proof.
  split; [discriminate|]. split; [reflexivity|]. split; [reflexivity|].
  pose proof (formatIdr_garbage_zero (str "abc") default_format ModeNumber
                ltac:(discriminate) eq_refl eq_refl) as H.
  split; [exact (proj1 H)|exact (proj1 (proj2 H))].
Defined.

(** ** Idempotence *)

(** C9 — formatting the text that [formatIdr] returned, with the same
    options, returns that text again; this holds for a string, a number
    (through its rendering), a FixedIdr and null. *)
Theorem formatIdr_idempotent v o :
  formatIdr (VStr (formatIdr v o)) o = formatIdr v o.
Proof.
  assert (H : forall s, formatIdr (VStr (format_text s o)) o = format_text s o).
  { intros s. rewrite formatIdr_text by apply format_text_nonempty.
    apply format_text_idempotent. }
  destruct v as [|s|s|fx]; cbn [formatIdr].
  - reflexivity.
  - destruct s; [reflexivity|]. cbn [is_empty]. apply H.
  - apply H.
  - destruct (FixedIdr_toString fx); [reflexivity|]. cbn [is_empty]. apply H.
Qed.

(** ** Noise characters *)

Lemma cleaned_char x m :
  In x (cleaned m) ->
  is_space x = false /\ N.eqb x c_minus = false.
Proof.
  intros H. apply filter_In in H. destruct H as [_ H].
  destruct (is_digit x) eqn:Ed.
  - split; [apply digit_not_space, Ed|apply digit_not_minus, Ed].
  - simpl in H. apply orb_true_iff in H.
    destruct H as [H|H]; apply N.eqb_eq in H; subst x; split; reflexivity.
Qed.

Lemma cleaned_no_space m : no_space (cleaned m) = true.
Proof.
  unfold no_space. apply forallb_forall. intros x Hx.
  destruct (cleaned_char x m Hx) as [-> _]. reflexivity.
Qed.

Lemma cleaned_signless m :
  is_negative (cleaned m) = false /\ magnitude (cleaned m) = cleaned m.
Proof.
  unfold magnitude, is_negative.
  rewrite (trim_no_space _ (cleaned_no_space m)).
  destruct (cleaned m) as [|x r] eqn:E; [split; reflexivity|].
  assert (Hx : In x (cleaned m)) by (rewrite E; left; reflexivity).
  destruct (cleaned_char x m Hx) as [_ Hm].
  cbn [startsWith]. rewrite Hm. split; reflexivity.
Qed.

Lemma cleaned_remove_spaces m : cleaned (remove_spaces m) = cleaned m.
Proof.
  apply filter_filter. intros c Hc.
  destruct (is_space c) eqn:Es; [|reflexivity].
  rewrite (space_not_digit c Es) in Hc. simpl in Hc.
  apply orb_true_iff in Hc.
  destruct Hc as [H|H]; apply N.eqb_eq in H; subst c; discriminate.
Qed.

(** Cleaning does not change the classification, unless the cleaned text
    matches the thousands pattern and the text itself does not. *)
Lemma classify_cleaned m :
  includes c_comma m = true \/
  thousandPattern (remove_spaces m) = thousandPattern (cleaned m) ->
  classify (cleaned m) = classify m.
Proof.
  intros H. rewrite !classify_spec.
  assert (Hc : includes c_comma (cleaned m) = includes c_comma m)
    by (apply includes_filter; reflexivity).
  assert (Hd : includes c_dot (cleaned m) = includes c_dot m)
    by (apply includes_filter; reflexivity).
  assert (Hb : forall sep, (is_digit sep || N.eqb sep c_dot || N.eqb sep c_comma) = true ->
            keep_digits (before sep (cleaned m)) = keep_digits (before sep m)).
  { intros sep Hs. unfold cleaned, keep_digits_dots_commas.
    rewrite before_filter by exact Hs. apply keep_digits_cleaned. }
  assert (Ha : forall sep, (is_digit sep || N.eqb sep c_dot || N.eqb sep c_comma) = true ->
            after sep (cleaned m) = cleaned (after sep m)).
  { intros sep Hs. unfold cleaned, keep_digits_dots_commas.
    apply after_filter. exact Hs. }
  rewrite Hc, Hd.
  destruct (includes c_comma m) eqn:Ec.
  - rewrite (Hb c_comma eq_refl), (Ha c_comma eq_refl).
    unfold cleaned. rewrite keep_digits_cleaned. reflexivity.
  - destruct H as [H|H]; [discriminate|].
    destruct (includes c_dot m) eqn:Ed.
    + rewrite (remove_spaces_no_space _ (cleaned_no_space m)), <- H.
      destruct (thousandPattern (remove_spaces m)) eqn:Et.
      * rewrite <- cleaned_remove_spaces.
        unfold cleaned. rewrite (dd_cleaned _ (thousandPattern_dd _ Et)).
        reflexivity.
      * rewrite (Hb c_dot eq_refl), (Ha c_dot eq_refl).
        unfold cleaned at 1, keep_digits_dots_commas.
        rewrite before_filter by reflexivity.
        fold (keep_digits_dots_commas (before c_dot (after c_dot m))).
        rewrite keep_digits_cleaned. reflexivity.
    + unfold cleaned. rewrite keep_digits_cleaned. reflexivity.
Qed.

(** Two edges set apart in what follows: "abc" is formatted as "0" while
    its cleaned text is empty and formatted as the empty text; and the
    leading minus of "-5" is outside [0-9.,] yet kept. *)
Lemma noise_discarded_counterexample :
  formatIdr (VStr (str "abc")) default_format
  <> formatIdr (VStr (cleaned (str "abc"))) default_format
  /\ formatIdr (VStr (str "-5")) default_format
     <> formatIdr (VStr (cleaned (str "-5"))) default_format.
Proof. split; vm_compute; discriminate. Qed.

(** Where noise is discarded: let r be the trimmed input without its
    leading minus.  When the cleaned text of r (its characters in [0-9.,])
    is not empty, and r has a comma or the thousands pattern answers the
    same on the cleaned text as on r without its white space, formatting
    the input is formatting the cleaned text, after the minus if the input
    had one. *)
Theorem formatIdr_noise_discarded value o :
  cleaned (magnitude value) <> [] ->
  includes c_comma (magnitude value) = true \/
  thousandPattern (remove_spaces (magnitude value))
  = thousandPattern (cleaned (magnitude value)) ->
  formatIdr (VStr value) o
  = minus_if (is_negative value)
    ++ formatIdr (VStr (cleaned (magnitude value))) o.
Proof.
  intros Hne H.
  assert (Hv : value <> []) by (intros ->; apply Hne; reflexivity).
  rewrite (formatIdr_text value o Hv), (formatIdr_text _ o Hne).
  rewrite (format_text_classify value o).
  rewrite (format_text_classify (cleaned (magnitude value)) o).
  destruct (cleaned_signless (magnitude value)) as [-> ->].
  rewrite (classify_cleaned _ H). reflexivity.
Qed.

Lemma formatIdr_noise_discarded_witness :
  cleaned (magnitude (str "-Rp 1a0b50,32")) <> [] /\
  (includes c_comma (magnitude (str "-Rp 1a0b50,32")) = true \/
   thousandPattern (remove_spaces (magnitude (str "-Rp 1a0b50,32")))
   = thousandPattern (cleaned (magnitude (str "-Rp 1a0b50,32")))) /\
  formatIdr (VStr (str "-Rp 1a0b50,32")) default_format
  = [c_minus] ++ formatIdr (VStr (str "1050,32")) default_format.
Proof.
  split; [discriminate|]. split; [left; reflexivity|].
  exact (formatIdr_noise_discarded (str "-Rp 1a0b50,32") default_format
           ltac:(discriminate) (or_introl eq_refl)).
Defined.

(** C5 — characters outside [0-9.,] are not discarded wherever they
    appear: in "Rp 1.500" the letters stay in the text the thousands
    pattern is tested on, the test fails, and the text is formatted as
    "1,500", while the same text without these characters, "1.500", is
    formatted as "1.500". *)
Theorem noise_kept_in_dot_branch :
  cleaned (str "Rp 1.500") = str "1.500"
  /\ formatIdr (VStr (str "Rp 1.500")) default_format = str "1,500"
  /\ formatIdr (VStr (cleaned (str "Rp 1.500"))) default_format = str "1.500"
  /\ formatIdr (VStr (str "Rp 1.500")) default_format
     <> formatIdr (VStr (cleaned (str "Rp 1.500"))) default_format.
Proof.
  split; [vm_compute; reflexivity|].
  split; [vm_compute; reflexivity|].
  split; [vm_compute; reflexivity|].
  vm_compute. discriminate.
Qed.

Example noise_ignored_with_comma :
  formatIdr (VStr (str "Rp 1a0b50,32")) default_format = str "1.050,32".
Proof. vm_compute. reflexivity. Qed.

Example noise_ignored_plain :
  formatIdr (VStr (str "  10 00 0  ")) default_format = str "10.000".
Proof. vm_compute. reflexivity. Qed.

(** ** The dot branch of formatIdr *)

(** Without a comma and with a dot, the test runs on the text without its
    white space only: when it matches, the dots go and there is no decimal
    part; otherwise the digits before the first dot are the integer part
    and the digits between the first and the second dot the decimal part. *)
Lemma classify_dot_branch m :
  includes c_comma m = false -> includes c_dot m = true ->
  classify m =
  if thousandPattern (remove_spaces m)
  then (or_else (remove_dots (remove_spaces m)) (str "0"), None)
  else (or_else (keep_digits (before c_dot m)) (str "0"),
        Some (keep_digits (before c_dot (after c_dot m)))).
Proof. intros Hc Hd. rewrite classify_spec, Hc, Hd. reflexivity. Qed.

Example dot_thousands : formatIdr (VStr (str "1.500")) default_format = str "1.500".
Proof. vm_compute. reflexivity. Qed.

Example dot_thousands_long :
  formatIdr (VStr (str "12.345.678")) default_format = str "12.345.678".
Proof. vm_compute. reflexivity. Qed.

Example dot_decimal : formatIdr (VStr (str "12.34")) default_format = str "12,34".
Proof. vm_compute. reflexivity. Qed.

(** C3 — the input "Rp 1.500" has a dot and no comma, and its cleaned text
    "1.500" matches the thousands pattern; yet [formatIdr] reads the dot as
    the decimal point and returns "1,500", because the test runs on
    "Rp1.500", where only the white space has been removed. *)
Theorem dot_heuristic_with_noise :
  includes c_dot (str "Rp 1.500") = true
  /\ includes c_comma (str "Rp 1.500") = false
  /\ cleaned (magnitude (str "Rp 1.500")) = str "1.500"
  /\ thousandPattern (cleaned (magnitude (str "Rp 1.500"))) = true
  /\ thousandPattern (remove_spaces (magnitude (str "Rp 1.500"))) = false
  /\ formatIdr (VStr (str "Rp 1.500")) default_format = str "1,500"
  /\ formatIdr (VStr (str "1.500")) default_format = str "1.500".
Proof. repeat split; vm_compute; reflexivity. Qed.

(** C6 — in "1.23.45" the digits after the second dot are lost: the
    decimal part is "23", not "2345", since [split(".", 2)] keeps the first
    two pieces only.  The comma branch keeps them: "1,23,45" gives
    "1,2345". *)
Theorem dot_decimal_drops_digits :
  thousandPattern (str "1.23.45") = false
  /\ formatIdr (VStr (str "1.23.45")) default_format = str "1,23"
  /\ dec_digits (snd (classify (str "1.23.45"))) = str "23"
  /\ formatIdr (VStr (str "1,23,45")) default_format = str "1,2345".
Proof. repeat split; vm_compute; reflexivity. Qed.

(** ** The exact round trip *)

(** C1 — the exact parse of "1,500" has scale 3 and units 1500; its
    canonical string "1.500" matches the thousands pattern, so [formatIdr]
    returns "1.500", whose exact parse has scale 0: the scale is not the
    same after the round trip. *)
Theorem exact_round_trip_scale_lost :
  parseIdr (VStr (str "1,500")) ModeFixed = PFixed (mkFixed SignPlus 1500 3)
  /\ FixedIdr_toString (mkFixed SignPlus 1500 3) = str "1.500"
  /\ formatIdr (VFixed (mkFixed SignPlus 1500 3)) default_format = str "1.500"
  /\ parseIdr (VStr (formatIdr (VFixed (mkFixed SignPlus 1500 3)) default_format))
       ModeFixed
     = PFixed (mkFixed SignPlus 1500 0).
Proof. repeat split; vm_compute; reflexivity. Qed.

Example exact_round_trip_scale_lost_negative :
  parseIdr (VStr (str "-000123,040")) ModeFixed
  = PFixed (mkFixed SignMinus 123040 3)
  /\ formatIdr (VFixed (mkFixed SignMinus 123040 3)) default_format
     = str "-123.040"
  /\ parseIdr (VStr (str "-123.040")) ModeFixed
     = PFixed (mkFixed SignMinus 123040 0).
Proof. repeat split; vm_compute; reflexivity. Qed.

Example exact_round_trip_sample :
  parseIdr (VStr (str "1.234.567,8901")) ModeFixed
  = PFixed (mkFixed SignPlus 12345678901 4)
  /\ formatIdr (VFixed (mkFixed SignPlus 12345678901 4)) default_format
     = str "1.234.567,8901"
  /\ parseIdr (VStr (str "1.234.567,8901")) ModeFixed
     = parseIdr (VStr (formatIdr (VFixed (mkFixed SignPlus 12345678901 4))
                         default_format)) ModeFixed.
Proof. repeat split; vm_compute; reflexivity. Qed.

Example exact_large_magnitude :
  parseIdr (VStr (str "9.223.372.036.854.775.807,99")) ModeFixed
  = PFixed (mkFixed SignPlus 922337203685477580799 2)
  /\ FixedIdr_toString (mkFixed SignPlus 922337203685477580799 2)
     = str "9223372036854775807.99".
Proof. split; vm_compute; reflexivity. Qed.

Example exact_negative_leading_zeros :
  parseIdr (VStr (str "-000123,040")) ModeFixed
  = PFixed (mkFixed SignMinus 123040 3)
  /\ FixedIdr_toString (mkFixed SignMinus 123040 3) = str "-123.040".
Proof. split; vm_compute; reflexivity. Qed.

(** *** Where the exact round trip holds *)

Lemma strip_length s : length (strip_leading_zeros s) <= length s.
Proof.
  destruct (strip_decomp s) as [k Hk]. rewrite Hk at 2.
  rewrite length_app. lia.
Qed.

Lemma canonical_head a b r :
  canon (a :: b :: r) = a :: b :: r -> N.eqb a c_zero = false.
Proof.
  rewrite canon_strip by discriminate. intros H.
  change (strip_leading_zeros (a :: b :: r))
    with (if N.eqb a c_zero then strip_leading_zeros (b :: r) else a :: b :: r)
    in H.
  destruct (N.eqb a c_zero); [|reflexivity].
  pose proof (strip_length (b :: r)) as Hl.
  apply (f_equal (@length char)) in H. simpl in H, Hl. lia.
Qed.

Lemma canonical_pad c D :
  canon c = c -> all_digits c = true -> all_digits D = true ->
  padStart (length D + 1) c_zero (BigInt.toString (BigInt.of_digits (c ++ D)))
  = c ++ D.
Proof.
  intros Hcan Hc HD.
  assert (Hcd : all_digits (c ++ D) = true) by (rewrite all_digits_app, Hc, HD; reflexivity).
  destruct c as [|a [|b r]].
  - exfalso. exact (canon_self_nonempty _ Hcan eq_refl).
  - replace (length D + 1) with (length ([a] ++ D)) by (simpl; lia).
    apply BigIntCanon.padStart_toString; [exact Hcd|discriminate].
  - rewrite BigIntCanon.toString_of_digits by (auto; discriminate).
    change ((a :: b :: r) ++ D) with (a :: b :: (r ++ D)).
    cbn [strip_leading_zeros]. rewrite (canonical_head a b r Hcan).
    unfold padStart. cbn [length].
    replace (length D + 1 - S (S (length (r ++ D)))) with 0
      by (rewrite length_app; lia).
    reflexivity.
Qed.

Lemma makeFixed_digits sg I D :
  all_digits D = true ->
  makeFixed sg I D = mkFixed sg (BigInt.of_digits (canon I ++ D)) (length D).
Proof.
  intros HD. unfold makeFixed. fold (canon I).
  rewrite (keep_digits_all D HD). reflexivity.
Qed.

(** The canonical string of an exact value: the canonical integer digits,
    then a dot and the decimal digits if there are any. *)
Lemma FixedIdr_toString_digits sg c D :
  canon c = c -> all_digits c = true -> all_digits D = true ->
  FixedIdr_toString (mkFixed sg (BigInt.of_digits (c ++ D)) (length D))
  = sign_prefix sg ++ c ++ (if is_empty D then [] else c_dot :: D).
Proof.
  intros Hcan Hc HD. unfold FixedIdr_toString. cbn [sign units scale].
  destruct D as [|d ds].
  - cbn [length Nat.eqb is_empty]. rewrite !app_nil_r.
    rewrite BigIntCanon.toString_of_digits_canon by exact Hc.
    rewrite Hcan. reflexivity.
  - cbn [is_empty]. destruct (Nat.eqb_spec (length (d :: ds)) 0) as [E|_];
      [discriminate|].
    rewrite (canonical_pad c (d :: ds) Hcan Hc HD).
    rewrite slice_0. unfold slice_last.
    replace (length (c ++ d :: ds) - length (d :: ds)) with (length c)
      by (rewrite length_app; lia).
    rewrite firstn_app, Nat.sub_diag, firstn_all, firstn_0, app_nil_r.
    rewrite skipn_app, Nat.sub_diag, skipn_all, skipn_0.
    reflexivity.
Qed.

Lemma canonical_no_space_head c rest :
  canon c = c -> all_digits c = true -> no_space rest = true ->
  no_space (c ++ rest) = true /\
  exists x r, c ++ rest = x :: r /\ is_digit x = true.
Proof.
  intros Hcan Hc Hr. split.
  - rewrite no_space_app, (digits_no_space c Hc), Hr. reflexivity.
  - destruct c as [|x r]; [exfalso; exact (canon_self_nonempty _ Hcan eq_refl)|].
    simpl in Hc. apply andb_true_iff in Hc.
    exists x, (r ++ rest). split; [reflexivity|tauto].
Qed.

Lemma minus_if_sign sg :
  sign_prefix sg = minus_if (match sg with SignMinus => true | SignPlus => false end).
Proof. destruct sg; reflexivity. Qed.

(** Formatting the canonical string of an exact value, when it does not
    match the thousands pattern. *)
Lemma format_text_canonical neg c D :
  canon c = c -> all_digits c = true -> all_digits D = true ->
  thousandPattern (c ++ (if is_empty D then [] else c_dot :: D)) = false ->
  format_text (minus_if neg ++ c ++ (if is_empty D then [] else c_dot :: D))
    default_format
  = minus_if neg ++ groupThousandsStr c
    ++ (if is_empty D then [] else c_comma :: D).
Proof.
  intros Hcan Hc HD Hpat.
  set (rest := if is_empty D then [] else c_dot :: D) in *.
  assert (Hrest : no_space rest = true).
  { unfold rest. destruct D as [|d ds]; [reflexivity|].
    cbn [is_empty]. change (c_dot :: d :: ds) with ([c_dot] ++ d :: ds).
    rewrite no_space_app, (digits_no_space _ HD). reflexivity. }
  destruct (canonical_no_space_head c rest Hcan Hc Hrest) as [Hns Hhead].
  rewrite format_text_classify.
  destruct (signed_text neg (c ++ rest) Hns Hhead) as [-> ->].
  f_equal. rewrite classify_spec.
  pose proof (canon_self_nonempty c Hcan) as Hne.
  unfold rest in *. destruct D as [|d ds]; cbn [is_empty] in *.
  - rewrite app_nil_r in *.
    rewrite (digits_no_comma c Hc), (digits_no_dot c Hc).
    cbn [fst snd]. rewrite (keep_digits_all c Hc), or_else_nonempty by exact Hne.
    unfold finish, default_format. cbn [decimals]. rewrite app_nil_r. reflexivity.
  - assert (Hcomma : includes c_comma (c ++ c_dot :: d :: ds) = false).
    { rewrite includes_app, includes_cons, (digits_no_comma c Hc).
      rewrite (digits_no_comma _ HD). reflexivity. }
    rewrite Hcomma.
    rewrite includes_app, includes_cons, N.eqb_refl, orb_true_r.
    rewrite (remove_spaces_no_space _ Hns), Hpat.
    rewrite before_app, after_app by (apply digits_no_dot, Hc).
    rewrite before_no_sep by (apply digits_no_dot, HD).
    rewrite (keep_digits_all c Hc), (keep_digits_all _ HD).
    rewrite or_else_nonempty by exact Hne.
    reflexivity.
Qed.

(** Parsing a formatted text gives back its digits. *)
Lemma parse_text_output neg c D :
  canon c = c -> all_digits c = true -> all_digits D = true ->
  parse_text (minus_if neg ++ groupThousandsStr c
              ++ (if is_empty D then [] else c_comma :: D)) ModeFixed
  = PFixed (makeFixed (if neg then SignMinus else SignPlus) c D).
Proof.
  intros Hcan Hc HD. rewrite parse_text_spec.
  destruct (signed_text neg _ (output_no_space c D Hcan Hc HD)
              (output_head c D Hcan Hc)) as [-> ->].
  pose proof (output_grouped c Hcan Hc) as Hgr.
  pose proof (canon_self_nonempty c Hcan) as Hne.
  pose proof (grouped_dd _ _ Hgr) as Hdd.
  pose proof (dd_no_comma _ Hdd) as Hnc.
  assert (Hkd : keep_digits (groupThousandsStr c) = c).
  { rewrite (dd_keep_digits _ Hdd). apply (grouped_remove_dots _ _ Hgr). }
  unfold parse_spec. destruct D as [|d ds]; cbn [is_empty].
  - rewrite app_nil_r.
    rewrite (before_no_sep _ _ Hnc), (after_no_sep _ _ Hnc), Hkd.
    destruct c; [contradiction|reflexivity].
  - rewrite (before_app _ _ _ Hnc), (after_app _ _ _ Hnc), Hkd.
    rewrite (keep_digits_all _ HD).
    destruct c; [contradiction|reflexivity].
Qed.

Lemma formatIdr_text_parse value mode :
  parseIdr (VStr (format_text value default_format)) mode
  = parse_text (format_text value default_format) mode.
Proof.
  pose proof (format_text_nonempty value default_format) as H.
  destruct (format_text value default_format); [contradiction|reflexivity].
Qed.

(** X22 — the exact round trip holds whenever the canonical string of the
    parsed value, without its sign, does not match the thousands pattern:
    sign, scale and units are then the same after formatting under the
    default options and parsing exactly. *)
Theorem exact_round_trip_outside_pattern T fx :
  parseIdr (VStr T) ModeFixed = PFixed fx ->
  thousandPattern (FixedIdr_toString (mkFixed SignPlus (units fx) (scale fx)))
  = false ->
  parseIdr (VStr (formatIdr (VFixed fx) default_format)) ModeFixed = PFixed fx.
Proof.
  intros Hparse Hpat.
  rewrite parseIdr_text_spec in Hparse. unfold parse_spec in Hparse.
  set (I0 := keep_digits (before c_comma (magnitude T))) in *.
  set (D := keep_digits (after c_comma (magnitude T))) in *.
  destruct (is_empty I0 && is_empty D); [discriminate|].
  injection Hparse as <-.
  set (sg := if is_negative T then SignMinus else SignPlus) in *.
  assert (HD : all_digits D = true) by apply keep_digits_digits.
  destruct (or_zero_digits I0 (keep_digits_digits _)) as [HIne HI].
  set (I := or_else I0 (str "0")) in *.
  rewrite (makeFixed_digits sg I D HD) in *.
  cbn [units scale] in Hpat.
  pose proof (canon_idem I) as Hcan.
  pose proof (canon_digits I HI) as Hc.
  rewrite (FixedIdr_toString_digits SignPlus (canon I) D Hcan Hc HD) in Hpat.
  cbn [sign_prefix app] in Hpat.
  cbn [formatIdr].
  rewrite (FixedIdr_toString_digits sg (canon I) D Hcan Hc HD).
  rewrite minus_if_sign.
  set (neg := match sg with SignMinus => true | SignPlus => false end).
  assert (Hnonempty : minus_if neg ++ canon I
                      ++ (if is_empty D then [] else c_dot :: D) <> []).
  { intros E. apply app_eq_nil in E. destruct E as [_ E].
    apply app_eq_nil in E. destruct E as [E _].
    exact (canon_nonempty I E). }
  destruct (minus_if neg ++ canon I ++ (if is_empty D then [] else c_dot :: D))
    as [|x0 r0] eqn:Etext; [contradiction|].
  cbn [is_empty]. rewrite <- Etext.
  rewrite formatIdr_text_parse.
  rewrite (format_text_canonical neg (canon I) D Hcan Hc HD Hpat).
  rewrite (parse_text_output neg (canon I) D Hcan Hc HD).
  rewrite (makeFixed_digits _ (canon I) D HD), Hcan.
  unfold neg, sg. destruct (is_negative T); reflexivity.
Qed.

Lemma exact_round_trip_outside_pattern_witness :
  parseIdr (VStr (str "-1.234.567,8901")) ModeFixed
  = PFixed (mkFixed SignMinus 12345678901 4) /\
  thousandPattern (FixedIdr_toString (mkFixed SignPlus 12345678901 4)) = false /\
  parseIdr (VStr (formatIdr (VFixed (mkFixed SignMinus 12345678901 4))
                    default_format)) ModeFixed
  = PFixed (mkFixed SignMinus 12345678901 4).
Proof.
  split; [vm_compute; reflexivity|]. split; [vm_compute; reflexivity|].
  apply (exact_round_trip_outside_pattern (str "-1.234.567,8901")
           (mkFixed SignMinus 12345678901 4)); vm_compute; reflexivity.
Defined.

(** * Further properties of the helpers *)

(** ** groupThousandsStr *)

Lemma Blocks_lengths gs :
  Blocks gs ->
  exists k, length gs = 4 * k /\ length (remove_dots gs) = 3 * k.
Proof.
  induction 1 as [|a b c r Ha Hb Hc Hr (k & H1 & H2)].
  - exists 0. split; reflexivity.
  - exists (S k). cbn [remove_dots filter length].
    change (negb (N.eqb c_dot c_dot)) with false. cbv iota.
    rewrite (digit_not_dot a Ha), (digit_not_dot b Hb), (digit_not_dot c Hc).
    cbn [negb length]. fold (remove_dots r). split; lia.
Qed.

Lemma grouped_length g c :
  grouped g c -> length g = length c + (length c - 1) / 3.
Proof.
  intros (p & gs & -> & Hne & Hp3 & Hp & Hb & Hc & _).
  destruct (Blocks_lengths gs Hb) as (k & H1 & H2).
  assert (Hp1 : 1 <= length p) by (destruct p; [contradiction|simpl; lia]).
  assert (Hlen : length c = length p + 3 * k).
  { rewrite <- Hc, length_app, H2. reflexivity. }
  rewrite length_app, H1, Hlen.
  assert (Hdiv : (length p + 3 * k - 1) / 3 = k).
  { symmetry. apply (Nat.div_unique _ 3 k (length p - 1)); lia. }
  rewrite Hdiv. lia.
Qed.

(** X1 — grouping loses no digit: without its dots, the grouped text is the
    digit string without its superfluous leading zeros ("0" for nothing),
    and dots are the only characters added. *)
Theorem groupThousandsStr_keeps_digits digits :
  all_digits digits = true ->
  remove_dots (groupThousandsStr digits) = canon digits
  /\ keep_digits (groupThousandsStr digits) = canon digits.
Proof.
  intros H. pose proof (groupThousandsStr_grouped digits H) as Hg.
  split.
  - apply (grouped_remove_dots _ _ Hg).
  - rewrite (dd_keep_digits _ (grouped_dd _ _ Hg)).
    apply (grouped_remove_dots _ _ Hg).
Qed.

Lemma groupThousandsStr_keeps_digits_witness :
  all_digits (str "0001234567") = true /\
  remove_dots (groupThousandsStr (str "0001234567")) = str "1234567".
Proof.
  split; [reflexivity|].
  exact (proj1 (groupThousandsStr_keeps_digits (str "0001234567") eq_refl)).
Defined.

(** X2 — a grouped text of n canonical digits has (n - 1) / 3 dots: its
    length is n + (n - 1) / 3, and it has a dot exactly when n > 3. *)
Theorem groupThousandsStr_length digits :
  all_digits digits = true ->
  length (groupThousandsStr digits)
  = length (canon digits) + (length (canon digits) - 1) / 3
  /\ includes c_dot (groupThousandsStr digits)
     = Nat.ltb 3 (length (canon digits)).
Proof.
  intros H. pose proof (groupThousandsStr_grouped digits H) as Hg.
  split; [apply grouped_length, Hg|apply grouped_includes_dot, Hg].
Qed.

Lemma groupThousandsStr_length_witness :
  all_digits (str "1234567") = true /\
  length (groupThousandsStr (str "1234567")) = 7 + (7 - 1) / 3.
Proof.
  split; [reflexivity|].
  exact (proj1 (groupThousandsStr_length (str "1234567") eq_refl)).
Defined.

(** X3 — the grouped text depends on the number only: two digit strings of
    the same value, whatever their leading zeros, are grouped alike, as is
    the decimal rendering of that value. *)
Theorem groupThousandsStr_by_value d1 d2 :
  all_digits d1 = true -> all_digits d2 = true ->
  BigInt.of_digits d1 = BigInt.of_digits d2 ->
  groupThousandsStr d1 = groupThousandsStr d2
  /\ groupThousandsStr (BigInt.toString (BigInt.of_digits d1))
     = groupThousandsStr d1.
Proof.
  intros H1 H2 Hv.
  assert (Hc : canon d1 = canon d2).
  { rewrite <- (BigIntCanon.toString_of_digits_canon d1 H1).
    rewrite <- (BigIntCanon.toString_of_digits_canon d2 H2).
    rewrite Hv. reflexivity. }
  split.
  - rewrite <- (groupThousandsStr_canon d1), <- (groupThousandsStr_canon d2).
    rewrite Hc. reflexivity.
  - rewrite (BigIntCanon.toString_of_digits_canon d1 H1).
    apply groupThousandsStr_canon.
Qed.

Lemma groupThousandsStr_by_value_witness :
  all_digits (str "0001500") = true /\ all_digits (str "1500") = true /\
  BigInt.of_digits (str "0001500") = BigInt.of_digits (str "1500") /\
  groupThousandsStr (str "0001500") = groupThousandsStr (str "1500").
Proof.
  split; [reflexivity|]. split; [reflexivity|]. split; [reflexivity|].
  exact (proj1 (groupThousandsStr_by_value (str "0001500") (str "1500")
                  eq_refl eq_refl eq_refl)).
Defined.

(** *** A grouped text is grouped in one way only *)

Lemma Blocks_remove_dots_inj gs : forall gs',
  Blocks gs -> Blocks gs' -> remove_dots gs = remove_dots gs' -> gs = gs'.
Proof.
  assert (Hrd : forall a b c r,
    is_digit a = true -> is_digit b = true -> is_digit c = true ->
    remove_dots (c_dot :: a :: b :: c :: r) = a :: b :: c :: remove_dots r).
  { intros a b c r Ha Hb Hc. cbn [remove_dots filter].
    change (negb (N.eqb c_dot c_dot)) with false. cbv iota.
    rewrite (digit_not_dot a Ha), (digit_not_dot b Hb), (digit_not_dot c Hc).
    reflexivity. }
  intros gs' H. revert gs'.
  induction H as [|a b c r Ha Hb Hc Hr IH]; intros gs' H' E.
  - destruct H' as [|a' b' c' r' Ha' Hb' Hc' Hr']; [reflexivity|].
    rewrite Hrd in E by assumption. discriminate.
  - destruct H' as [|a' b' c' r' Ha' Hb' Hc' Hr'].
    + rewrite Hrd in E by assumption. discriminate.
    + rewrite !Hrd in E by assumption.
      injection E as -> -> -> E. f_equal. f_equal. f_equal. f_equal.
      apply IH; assumption.
Qed.

Lemma app_eq_length (a a' b b' : text) :
  a ++ b = a' ++ b' -> length a = length a' -> a = a' /\ b = b'.
Proof.
  revert a'. induction a as [|x a IH]; intros [|x' a'] E Hl;
    simpl in *; try discriminate.
  - split; [reflexivity|exact E].
  - injection E as -> E. injection Hl as Hl.
    destruct (IH a' E Hl) as [-> ->]. split; reflexivity.
Qed.

Lemma grouped_unique g g' c : grouped g c -> grouped g' c -> g = g'.
Proof.
  intros (p & gs & -> & Hne & Hp3 & Hp & Hb & Hc & _)
         (p' & gs' & -> & Hne' & Hp3' & Hp' & Hb' & Hc' & _).
  destruct (Blocks_lengths gs Hb) as (k & _ & H2).
  destruct (Blocks_lengths gs' Hb') as (k' & _ & H2').
  assert (Hp1 : 1 <= length p) by (destruct p; [contradiction|simpl; lia]).
  assert (Hp1' : 1 <= length p') by (destruct p'; [contradiction|simpl; lia]).
  assert (Hlen : length p + 3 * k = length p' + 3 * k').
  { rewrite <- H2, <- H2', <- !length_app, Hc, Hc'. reflexivity. }
  rewrite <- Hc' in Hc.
  destruct (app_eq_length _ _ _ _ Hc ltac:(lia)) as [-> Hrd].
  f_equal. apply Blocks_remove_dots_inj; assumption.
Qed.

Lemma thousandPattern_grouped G :
  thousandPattern G = true -> grouped G (remove_dots G).
Proof.
  intros H.
  assert (Hk : exists k, 0 < k <= 3 /\ digits_then_groups k G = true).
  { unfold thousandPattern in H. rewrite !orb_true_iff in H.
    destruct H as [[H|H]|H]; [exists 3|exists 2|exists 1]; split; auto; lia. }
  destruct Hk as (k & Hk & Hd). unfold digits_then_groups in Hd.
  rewrite !andb_true_iff in Hd. destruct Hd as ((Hl & Hp) & Hg).
  apply Nat.eqb_eq in Hl.
  pose proof (dot_groups_Blocks _ Hg) as Hb.
  assert (Hgne : skipn k G <> []) by (intros E; rewrite E in Hg; discriminate).
  destruct (Blocks_lengths _ Hb) as (j & Hj4 & Hj3).
  assert (Hj : 0 < j).
  { destruct j; [|lia]. destruct (skipn k G); [contradiction|discriminate]. }
  exists (firstn k G), (skipn k G).
  assert (Hc : firstn k G ++ remove_dots (skipn k G) = remove_dots G).
  { rewrite <- (firstn_skipn k G) at 3.
    rewrite remove_dots_app, (remove_dots_digits _ Hp). reflexivity. }
  assert (Hlen : length (remove_dots G) = k + 3 * j).
  { rewrite <- Hc, length_app, Hl, Hj3. reflexivity. }
  repeat split; auto.
  - symmetry. apply firstn_skipn.
  - intros E. rewrite E in Hl. simpl in Hl. lia.
  - lia.
  - intros Hs. lia.
Qed.

Lemma thousandPattern_regroup G :
  thousandPattern G = true -> startsWith c_zero G = false ->
  canon (remove_dots G) = remove_dots G
  /\ all_digits (remove_dots G) = true
  /\ groupThousandsStr (remove_dots G) = G.
Proof.
  intros Hpat Hz.
  pose proof (thousandPattern_grouped G Hpat) as Hg.
  pose proof (grouped_digits _ _ Hg) as Hd.
  assert (Hcanon : canon (remove_dots G) = remove_dots G).
  { destruct Hg as (p & gs & E & Hne & _ & Hp & _ & Hc & _).
    rewrite <- Hc. destruct p as [|x p]; [contradiction|].
    rewrite E in Hz. cbn [app startsWith] in Hz.
    rewrite canon_strip by discriminate.
    cbn [app]. destruct (p ++ remove_dots gs) eqn:Et; [reflexivity|].
    cbn [strip_leading_zeros]. rewrite Hz. reflexivity. }
  split; [exact Hcanon|]. split; [exact Hd|].
  apply (grouped_unique _ _ (remove_dots G)); [|exact Hg].
  rewrite <- Hcanon at 2. apply groupThousandsStr_grouped, Hd.
Qed.

(** X4 — regrouping: when a text matches the thousands pattern
    [/^\d{1,3}(\.\d{3})+$/] and does not start with a zero, grouping its
    digits gives the text back. *)
Theorem groupThousandsStr_regroups G :
  thousandPattern G = true -> startsWith c_zero G = false ->
  groupThousandsStr (remove_dots G) = G.
Proof. intros Hpat Hz. apply (thousandPattern_regroup G Hpat Hz). Qed.

Lemma groupThousandsStr_regroups_witness :
  thousandPattern (str "12.345.678") = true /\
  startsWith c_zero (str "12.345.678") = false /\
  groupThousandsStr (remove_dots (str "12.345.678")) = str "12.345.678".
Proof.
  split; [reflexivity|]. split; [reflexivity|].
  exact (groupThousandsStr_regroups (str "12.345.678") eq_refl eq_refl).
Defined.

(** ** applyFixedDecimals *)

Lemma round_half_up_units_nearest I D n :
  all_digits D = true -> n < length D ->
  round_half_up_units I D n
  = ((2 * BigInt.of_digits (I ++ D) + 10 ^ N.of_nat (length D - n))
     / (2 * 10 ^ N.of_nat (length D - n)))%N.
Proof.
  intros HD Hn. unfold round_half_up_units.
  rewrite firstn_padded. replace (n - length D) with 0 by lia.
  cbn [repeat]. rewrite app_nil_r.
  assert (Hsplit : D = firstn n D ++ skipn n D) by (symmetry; apply firstn_skipn).
  assert (Hkl : length (firstn n D) = n) by (rewrite length_firstn; lia).
  destruct (skipn n D) as [|x rest] eqn:Hs.
  { apply (f_equal (@length char)) in Hs. rewrite length_skipn in Hs.
    simpl in Hs. lia. }
  set (keep := firstn n D) in *.
  assert (Hx : nth n D c_zero = x).
  { rewrite Hsplit, app_nth2 by lia. rewrite Hkl, Nat.sub_diag. reflexivity. }
  rewrite Hx.
  assert (Hdx : is_digit x = true /\ all_digits rest = true).
  { rewrite Hsplit, all_digits_app in HD. apply andb_true_iff in HD.
    destruct HD as [_ HD]. simpl in HD. apply andb_true_iff in HD. exact HD. }
  destruct Hdx as [Hdx Hrest].
  pose proof (digit_value_lt x Hdx) as Hx10.
  pose proof (BigIntFacts.of_digits_bound rest Hrest) as Hrb.
  assert (Hlen : length D - n = S (length rest)).
  { rewrite Hsplit at 1. rewrite length_app, Hkl. simpl. lia. }
  rewrite Hlen, Nat2N.inj_succ, N.pow_succ_r'.
  set (P := (10 ^ N.of_nat (length rest))%N) in *.
  assert (HP : (0 < P)%N).
  { unfold P. apply N.neq_0_lt_0. apply N.pow_nonzero. lia. }
  assert (HE : BigInt.of_digits (I ++ D)
               = ((BigInt.of_digits I * 10 ^ N.of_nat n
                   + BigInt.of_digits keep) * (10 * P)
                  + digit_value x * P + BigInt.of_digits rest)%N).
  { rewrite Hsplit at 1. rewrite app_assoc.
    change (x :: rest) with ([x] ++ rest). rewrite app_assoc.
    rewrite !BigIntFacts.of_digits_app.
    replace (BigInt.of_digits [x]) with (digit_value x)
      by (unfold BigInt.of_digits; simpl; lia).
    rewrite Hkl. change (N.of_nat (length [x])) with 1%N.
    rewrite N.pow_1_r. fold P. lia. }
  rewrite HE.
  set (F := (BigInt.of_digits I * 10 ^ N.of_nat n + BigInt.of_digits keep)%N).
  set (dx := digit_value x) in *. set (vr := BigInt.of_digits rest) in *.
  destruct (N.leb_spec 5 dx) as [Hhi|Hlo].
  - apply (N.div_unique _ _ _ (2 * (dx * P) + 2 * vr - 10 * P)%N).
    + assert (dx * P <= 9 * P)%N by (apply N.mul_le_mono_r; lia).
      assert (5 * P <= dx * P)%N by (apply N.mul_le_mono_r; lia).
      lia.
    + assert (5 * P <= dx * P)%N by (apply N.mul_le_mono_r; lia).
      lia.
  - apply (N.div_unique _ _ _ (2 * (dx * P) + 2 * vr + 10 * P)%N).
    + assert (dx * P <= 4 * P)%N by (apply N.mul_le_mono_r; lia).
      lia.
    + lia.
Qed.

(** X5 — when digits are dropped, the result is the nearest number with N
    decimals, ties going up: writing E for the integer I.D without its
    point and k for the count of dropped digits, the digits returned are
    those of floor((2E + 10^k) / (2 * 10^k)), that is floor(E / 10^k + 1/2). *)
Theorem applyFixedDecimals_nearest I D z :
  all_digits I = true -> I <> [] -> all_digits D = true ->
  (0 < z)%Z -> Z.to_nat z < length D ->
  BigInt.of_digits (fst (applyFixedDecimals I D z)
                    ++ snd (applyFixedDecimals I D z))
  = ((2 * BigInt.of_digits (I ++ D)
      + 10 ^ N.of_nat (length D - Z.to_nat z))
     / (2 * 10 ^ N.of_nat (length D - Z.to_nat z)))%N
  /\ length (snd (applyFixedDecimals I D z)) = Z.to_nat z.
Proof.
  intros HI HIne HD Hz Hn.
  pose proof (applyFixedDecimals_round I D z HI HIne HD Hz) as Hr.
  destruct (applyFixedDecimals I D z) as [i d]. cbn [fst snd].
  destruct Hr as (_ & _ & _ & Hlen & Hval).
  split; [|exact Hlen].
  rewrite Hval. apply round_half_up_units_nearest; assumption.
Qed.

Lemma applyFixedDecimals_nearest_witness :
  all_digits (str "1050") = true /\ str "1050" <> [] /\
  all_digits (str "5678") = true /\ (0 < 2)%Z /\
  Z.to_nat 2 < length (str "5678") /\
  BigInt.of_digits (fst (applyFixedDecimals (str "1050") (str "5678") 2)
                    ++ snd (applyFixedDecimals (str "1050") (str "5678") 2))
  = ((2 * 10505678 + 10 ^ 2) / (2 * 10 ^ 2))%N.
Proof.
  split; [reflexivity|]. split; [discriminate|]. split; [reflexivity|].
  split; [lia|]. split; [simpl; lia|].
  exact (proj1 (applyFixedDecimals_nearest (str "1050") (str "5678") 2
                  eq_refl ltac:(discriminate) eq_refl ltac:(lia)
                  ltac:(simpl; lia))).
Defined.

Lemma applyFixedDecimals_clean I D z :
  applyFixedDecimals I D z
  = applyFixedDecimals
      (or_else (keep_digits (or_else I (str "0"))) (str "0"))
      (keep_digits D) z.
Proof.
  unfold applyFixedDecimals.
  destruct (or_zero_digits _ (keep_digits_digits (or_else I (str "0"))))
    as [Hne Hd].
  rewrite (clean_int_digits _ Hd Hne).
  rewrite (keep_digits_all _ (keep_digits_digits D)). reflexivity.
Qed.

(** X6 — rounding is idempotent: applied to the pair it returned, with the
    same count of decimals, [applyFixedDecimals] returns that pair; this
    holds for any two strings and any count. *)
Theorem applyFixedDecimals_idempotent I D z :
  applyFixedDecimals (fst (applyFixedDecimals I D z))
    (snd (applyFixedDecimals I D z)) z
  = applyFixedDecimals I D z.
Proof.
  rewrite (applyFixedDecimals_clean I D z).
  destruct (or_zero_digits _ (keep_digits_digits (or_else I (str "0"))))
    as [Hne Hd].
  pose proof (keep_digits_digits D) as HD.
  set (cI := or_else (keep_digits (or_else I (str "0"))) (str "0")) in *.
  set (cD := keep_digits D) in *.
  destruct (Z.ltb_spec 0 z) as [Hpos|Hnonpos].
  - pose proof (applyFixedDecimals_round cI cD z Hd Hne HD Hpos) as Hr.
    destruct (applyFixedDecimals cI cD z) as [i d]. cbn [fst snd].
    destruct Hr as (Hine & Hid & Hdd & Hlen & _).
    unfold applyFixedDecimals.
    rewrite (clean_int_digits i Hid Hine), (keep_digits_all d Hdd).
    destruct (Z.leb_spec z 0); [lia|].
    rewrite Hlen, Nat.eqb_refl. reflexivity.
  - rewrite (applyFixedDecimals_integer cI cD z Hd Hne HD Hnonpos).
    cbn [fst snd].
    rewrite (applyFixedDecimals_integer _ [] z
               (BigIntFacts.toString_digits _)
               (BigIntFacts.toString_nonempty _) eq_refl Hnonpos).
    cbn [nth]. change (digit_value c_zero) with 0%N. cbn [N.leb N.compare].
    rewrite N.add_0_r, BigIntFacts.of_digits_toString. reflexivity.
Qed.

(** ** keepFirstCommaOnly *)

Lemma count_occ_absent sep (s : text) :
  includes sep s = false -> @count_occ char N.eq_dec s sep = 0.
Proof.
  induction s as [|c r IH]; [reflexivity|].
  rewrite includes_cons. intros H. apply orb_false_iff in H.
  destruct H as [Hc Hr]. apply N.eqb_neq in Hc.
  rewrite count_occ_cons_neq by exact Hc. apply IH, Hr.
Qed.

Lemma split_at_first sep s :
  includes sep s = true -> s = before sep s ++ sep :: after sep s.
Proof.
  induction s as [|c r IH]; [discriminate|].
  rewrite includes_cons. cbn [before after].
  destruct (N.eqb_spec c sep) as [->|Hne]; [reflexivity|].
  intros H. simpl in H. cbn [app]. f_equal. apply IH, H.
Qed.

Lemma remove_commas_idem s : remove_commas (remove_commas s) = remove_commas s.
Proof. apply filter_filter. intros c Hc. exact Hc. Qed.

(** X7 — [keepFirstCommaOnly] leaves one comma in a text that has one or
    more, the first one, and none in a text without; every other character
    stays, in order; applying it again changes nothing. *)
Theorem keepFirstCommaOnly_one_comma s :
  @count_occ char N.eq_dec (keepFirstCommaOnly s) c_comma
  = (if includes c_comma s then 1 else 0)
  /\ before c_comma (keepFirstCommaOnly s) = before c_comma s
  /\ remove_commas (keepFirstCommaOnly s) = remove_commas s
  /\ keepFirstCommaOnly (keepFirstCommaOnly s) = keepFirstCommaOnly s.
Proof.
  rewrite (keepFirstCommaOnly_spec (keepFirstCommaOnly s)).
  rewrite (keepFirstCommaOnly_spec s).
  destruct (includes c_comma s) eqn:Hc.
  - set (b := before c_comma s). set (a := after c_comma s).
    assert (Hb : includes c_comma b = false) by apply includes_before.
    assert (Hinc : includes c_comma (b ++ c_comma :: remove_commas a) = true).
    { rewrite includes_app, includes_cons, N.eqb_refl. apply orb_true_r. }
    rewrite Hinc, before_app, after_app by exact Hb.
    rewrite remove_commas_idem.
    repeat split.
    + rewrite count_occ_app, (count_occ_absent _ _ Hb).
      rewrite count_occ_cons_eq by reflexivity.
      rewrite (count_occ_absent _ _ (remove_commas_no_comma a)). reflexivity.
    + rewrite (split_at_first c_comma s Hc) at 1. fold b a.
      unfold remove_commas. rewrite !filter_app.
      cbn [filter]. change (negb (N.eqb c_comma c_comma)) with false.
      cbv iota. fold (remove_commas a). fold (remove_commas (remove_commas a)).
      rewrite remove_commas_idem. reflexivity.
  - rewrite Hc. repeat split. apply count_occ_absent, Hc.
Qed.

(** ** makeFixed *)

(** X8 — the value of the object [makeFixed] builds is
    sign * units / 10^scale: the scale is the count of decimal digits
    supplied, the units divided by 10^scale are the integer digits read as
    a number, and the remainder is the decimal digits read as a number. *)
Theorem makeFixed_value sg I D :
  all_digits I = true ->
  sign (makeFixed sg I D) = sg
  /\ scale (makeFixed sg I D) = length (keep_digits D)
  /\ (units (makeFixed sg I D) / 10 ^ N.of_nat (scale (makeFixed sg I D))
      = BigInt.of_digits I)%N
  /\ (units (makeFixed sg I D) mod 10 ^ N.of_nat (scale (makeFixed sg I D))
      = BigInt.of_digits (keep_digits D))%N.
Proof.
  intros HI. unfold makeFixed. cbn [sign units scale]. fold (canon I).
  rewrite BigIntFacts.of_digits_app, BigIntCanon.of_digits_canon.
  pose proof (BigIntFacts.of_digits_bound _ (keep_digits_digits D)) as Hb.
  assert (Hpow : (10 ^ N.of_nat (length (keep_digits D)) <> 0)%N)
    by (apply N.pow_nonzero; lia).
  repeat split.
  - rewrite N.div_add_l by exact Hpow.
    rewrite N.div_small by exact Hb. apply N.add_0_r.
  - rewrite N.add_comm, N.Div0.mod_add. apply N.mod_small, Hb.
Qed.

Lemma makeFixed_value_witness :
  all_digits (str "000123") = true /\
  scale (makeFixed SignMinus (str "000123") (str "040")) = 3 /\
  (units (makeFixed SignMinus (str "000123") (str "040")) / 10 ^ 3 = 123)%N.
Proof.
  split; [reflexivity|].
  pose proof (makeFixed_value SignMinus (str "000123") (str "040") eq_refl) as H.
  split; [exact (proj1 (proj2 H))|exact (proj1 (proj2 (proj2 H)))].
Defined.

(** X9 — the canonical string of the object [makeFixed] builds is the
    sign, the integer digits without superfluous leading zeros and, when
    there are decimal digits, a dot and all of them, trailing zeros
    included. *)
Theorem FixedIdr_toString_makeFixed sg I D :
  all_digits I = true ->
  FixedIdr_toString (makeFixed sg I D)
  = sign_prefix sg ++ canon I
    ++ (if is_empty (keep_digits D) then [] else c_dot :: keep_digits D).
Proof.
  intros HI. unfold makeFixed. fold (canon I).
  apply FixedIdr_toString_digits.
  - apply canon_idem.
  - apply canon_digits, HI.
  - apply keep_digits_digits.
Qed.

Lemma FixedIdr_toString_makeFixed_witness :
  all_digits (str "000") = true /\
  FixedIdr_toString (makeFixed SignMinus (str "000") (str "0500"))
  = [c_minus] ++ str "0" ++ c_dot :: str "0500".
Proof.
  split; [reflexivity|].
  exact (FixedIdr_toString_makeFixed SignMinus (str "000") (str "0500") eq_refl).
Defined.

(** ** parseIdr *)

Lemma keep_digits_magnitude value :
  keep_digits (magnitude value) = keep_digits value.
Proof.
  unfold magnitude, is_negative.
  assert (E : keep_digits value = keep_digits (trim value))
    by (symmetry; apply (filter_trim is_digit value space_not_digit)).
  rewrite E.
  destruct (trim value) as [|c r]; [reflexivity|].
  cbn [startsWith]. destruct (N.eqb_spec c c_minus) as [->|_]; reflexivity.
Qed.

(** X10 — in exact mode [parseIdr] returns null exactly for the texts
    without any digit; every text with a digit has an exact value. *)
Theorem parseIdr_null_iff value :
  parseIdr (VStr value) ModeFixed = PNull <-> keep_digits value = [].
Proof.
  split.
  - rewrite parseIdr_text_spec. unfold parse_spec.
    pose proof (keep_digits_split c_comma (magnitude value) eq_refl) as Hs.
    rewrite keep_digits_magnitude in Hs.
    destruct (keep_digits (before c_comma (magnitude value)));
      destruct (keep_digits (after c_comma (magnitude value)));
      cbn [is_empty andb]; try discriminate.
    intros _. exact Hs.
  - intros H. destruct value as [|c r]; [reflexivity|].
    cbn [parseIdr is_empty]. apply parse_text_no_digits, H.
Qed.

(** X11 — both modes of [parseIdr] read the same digits: either both
    return null before any conversion, or the exact value is built from a
    non-empty integer digit string I and a decimal digit string D, and the
    text handed to [Number] is the plain decimal literal of the sign, I
    and, if D is not empty, a point and D. *)
Theorem parseIdr_modes_agree value :
  (parseIdr (VStr value) ModeFixed = PNull
   /\ parseIdr (VStr value) ModeNumber = PNull)
  \/ exists I D,
       I <> [] /\ all_digits I = true /\ all_digits D = true /\
       parseIdr (VStr value) ModeFixed
       = PFixed (makeFixed (if is_negative value then SignMinus else SignPlus)
                   I D) /\
       parseIdr (VStr value) ModeNumber
       = PNumber (minus_if (is_negative value) ++ I
                  ++ (if is_empty D then [] else c_dot :: D)).
Proof.
  rewrite !parseIdr_text_spec. unfold parse_spec.
  set (I0 := keep_digits (before c_comma (magnitude value))).
  set (D0 := keep_digits (after c_comma (magnitude value))).
  destruct (is_empty I0 && is_empty D0).
  - left. split; reflexivity.
  - right. exists (or_else I0 (str "0")), D0.
    destruct (or_zero_digits I0 (keep_digits_digits _)) as [Hne Hd].
    repeat split; try assumption. apply keep_digits_digits.
Qed.

(** * Further properties of formatIdr and parseIdr *)

Lemma formatIdr_input_none v o : input_text v = None -> formatIdr v o = [].
Proof.
  destruct v as [|s|s|fx]; cbn [input_text formatIdr]; try reflexivity.
  - destruct (is_empty s); [reflexivity|discriminate].
  - discriminate.
  - destruct (is_empty (FixedIdr_toString fx)); [reflexivity|discriminate].
Qed.

Lemma finish_default I R :
  finish default_format I R
  = groupThousandsStr (canon I)
    ++ (if is_empty (dec_digits R) then [] else c_comma :: dec_digits R).
Proof.
  unfold finish, default_format. cbn [decimals padZeros].
  rewrite groupThousandsStr_canon.
  destruct R as [[|x r]|]; cbn [dec_digits is_empty];
    rewrite ?app_nil_r; reflexivity.
Qed.

(** ** The shape of the output *)

Lemma well_grouped_regroup G :
  well_grouped G ->
  canon (remove_dots G) = remove_dots G
  /\ all_digits (remove_dots G) = true
  /\ groupThousandsStr (remove_dots G) = G.
Proof.
  intros [(Hd & Hc & Hl)|(Hp & Hz)].
  - rewrite (remove_dots_digits G Hd).
    split; [exact Hc|]. split; [exact Hd|].
    pose proof (groupThousandsStr_grouped G Hd) as Hg. rewrite Hc in Hg.
    apply (grouped_small _ _ Hg Hl).
  - apply thousandPattern_regroup; assumption.
Qed.

Lemma groupThousandsStr_well_grouped c :
  canon c = c -> all_digits c = true -> well_grouped (groupThousandsStr c).
Proof.
  intros Hcan Hc.
  pose proof (groupThousandsStr_grouped c Hc) as Hg. rewrite Hcan in Hg.
  destruct (Nat.leb_spec (length c) 3) as [Hs|Hb].
  - left. rewrite (grouped_small _ _ Hg Hs). auto.
  - right. split.
    + rewrite (grouped_pattern _ _ Hg). apply Nat.ltb_lt. exact Hb.
    + destruct Hg as (p & gs & -> & Hne & _ & _ & _ & E & _).
      destruct p as [|x p]; [contradiction|]. cbn [app startsWith].
      destruct c as [|a [|b r]]; simpl in Hb; try lia.
      cbn [app] in E. injection E as -> _.
      apply (canonical_head a b r Hcan).
Qed.

(** X12 — whatever the input and the options, the text [formatIdr] returns
    for an input it does not answer by "" is never empty and has no white
    space: it is a "-" if the trimmed input starts with one, a well
    grouped integer part, and possibly a comma followed by digits. *)
Theorem formatIdr_output_shape v value o :
  input_text v = Some value ->
  formatIdr v o <> []
  /\ no_space (formatIdr v o) = true
  /\ exists G D,
       well_grouped G /\ all_digits D = true /\
       formatIdr v o
       = minus_if (is_negative value) ++ G
         ++ (if is_empty D then [] else c_comma :: D).
Proof.
  intros Hin. rewrite (formatIdr_input v value o Hin).
  split; [apply format_text_nonempty|].
  rewrite format_text_classify.
  destruct (classify_digits (magnitude value)) as (H1 & H2 & H3).
  destruct (finish_shape o _ _ H1 H2 H3) as (c & D & Hc & Hcd & HDd & E & _).
  rewrite E. split.
  - rewrite no_space_app, (output_no_space c D Hc Hcd HDd).
    destruct (is_negative value); reflexivity.
  - exists (groupThousandsStr c), D.
    split; [apply groupThousandsStr_well_grouped; assumption|].
    split; [exact HDd|reflexivity].
Qed.

Lemma formatIdr_output_shape_witness :
  input_text (VNum (str "-1050.5")) = Some (str "-1050.5") /\
  formatIdr (VNum (str "-1050.5")) default_format <> [].
Proof.
  split; [reflexivity|].
  exact (proj1 (formatIdr_output_shape (VNum (str "-1050.5")) (str "-1050.5")
                  default_format eq_refl)).
Defined.

(** X13 — under the default options a text of that shape is returned
    unchanged: a well grouped integer part, with or without a leading "-",
    with or without a comma and decimal digits. *)
Theorem formatIdr_grouped_unchanged neg G D :
  well_grouped G -> all_digits D = true ->
  formatIdr (VStr (minus_if neg ++ G
                   ++ (if is_empty D then [] else c_comma :: D)))
    default_format
  = minus_if neg ++ G ++ (if is_empty D then [] else c_comma :: D).
Proof.
  intros HG HD.
  destruct (well_grouped_regroup G HG) as (Hcan & Hc & Hgr).
  set (c := remove_dots G) in *.
  rewrite <- Hgr.
  assert (Hne : minus_if neg ++ groupThousandsStr c
                ++ (if is_empty D then [] else c_comma :: D) <> []).
  { destruct (output_head c D Hcan Hc) as (x & r & Ex & _).
    rewrite Ex. destruct neg; discriminate. }
  rewrite (formatIdr_text _ _ Hne).
  rewrite (format_text_output c D Hcan Hc HD).
  rewrite finish_default, Hcan. reflexivity.
Qed.

Lemma formatIdr_grouped_unchanged_witness :
  well_grouped (str "1.234.567") /\ all_digits (str "8901") = true /\
  formatIdr (VStr ([c_minus] ++ str "1.234.567" ++ c_comma :: str "8901"))
    default_format
  = [c_minus] ++ str "1.234.567" ++ c_comma :: str "8901".
Proof.
  assert (H : well_grouped (str "1.234.567"))
    by (right; split; reflexivity).
  split; [exact H|]. split; [reflexivity|].
  exact (formatIdr_grouped_unchanged true (str "1.234.567") (str "8901")
           H eq_refl).
Defined.

(** ** White space and the leading minus *)

Lemma remove_spaces_idem m : remove_spaces (remove_spaces m) = remove_spaces m.
Proof. apply filter_filter. intros c Hc. exact Hc. Qed.

Lemma classify_remove_spaces m : classify (remove_spaces m) = classify m.
Proof.
  rewrite !classify_spec.
  assert (Hinc : forall sep, is_space sep = false ->
            includes sep (remove_spaces m) = includes sep m).
  { intros sep Hs. apply includes_filter. rewrite Hs. reflexivity. }
  assert (Hb : forall sep s, is_space sep = false ->
            keep_digits (before sep (remove_spaces s)) = keep_digits (before sep s)).
  { intros sep s Hs. unfold remove_spaces.
    rewrite before_filter by (rewrite Hs; reflexivity).
    apply keep_digits_remove_spaces. }
  assert (Ha : forall sep, is_space sep = false ->
            after sep (remove_spaces m) = remove_spaces (after sep m)).
  { intros sep Hs. apply after_filter. rewrite Hs. reflexivity. }
  rewrite (Hinc c_comma eq_refl), (Hinc c_dot eq_refl), remove_spaces_idem.
  rewrite (Hb c_comma m eq_refl), (Hb c_dot m eq_refl).
  rewrite (Ha c_comma eq_refl), (Ha c_dot eq_refl).
  rewrite (Hb c_dot (after c_dot m) eq_refl).
  rewrite !keep_digits_remove_spaces. reflexivity.
Qed.

Lemma parse_spec_remove_spaces neg m mode :
  parse_spec neg (remove_spaces m) mode = parse_spec neg m mode.
Proof.
  assert (E1 : keep_digits (before c_comma (remove_spaces m))
               = keep_digits (before c_comma m)).
  { unfold remove_spaces. rewrite before_filter by reflexivity.
    apply keep_digits_remove_spaces. }
  assert (E2 : keep_digits (after c_comma (remove_spaces m))
               = keep_digits (after c_comma m)).
  { unfold remove_spaces. rewrite after_filter by reflexivity.
    apply keep_digits_remove_spaces. }
  unfold parse_spec. rewrite E1, E2. reflexivity.
Qed.

(** X14 — white space is ignored wherever it stands: two non-empty texts
    with the same sign whose magnitudes differ by white space only are
    formatted alike, under any options, and parsed alike, in both modes. *)
Theorem spaces_ignored v1 v2 o mode :
  v1 <> [] -> v2 <> [] ->
  is_negative v1 = is_negative v2 ->
  remove_spaces (magnitude v1) = remove_spaces (magnitude v2) ->
  formatIdr (VStr v1) o = formatIdr (VStr v2) o
  /\ parseIdr (VStr v1) mode = parseIdr (VStr v2) mode.
Proof.
  intros H1 H2 Hs Hm. split.
  - rewrite (formatIdr_text v1 o H1), (formatIdr_text v2 o H2).
    rewrite !format_text_classify, Hs.
    rewrite <- (classify_remove_spaces (magnitude v1)), Hm.
    rewrite classify_remove_spaces. reflexivity.
  - rewrite !parseIdr_text_spec, Hs.
    rewrite <- (parse_spec_remove_spaces _ (magnitude v1)), Hm.
    apply parse_spec_remove_spaces.
Qed.

Lemma spaces_ignored_witness :
  str "  10 00 0  " <> [] /\ str "10000" <> [] /\
  is_negative (str "  10 00 0  ") = is_negative (str "10000") /\
  remove_spaces (magnitude (str "  10 00 0  "))
  = remove_spaces (magnitude (str "10000")) /\
  formatIdr (VStr (str "  10 00 0  ")) default_format
  = formatIdr (VStr (str "10000")) default_format.
Proof.
  split; [discriminate|]. split; [discriminate|].
  split; [reflexivity|]. split; [reflexivity|].
  exact (proj1 (spaces_ignored (str "  10 00 0  ") (str "10000")
                  default_format ModeNumber
                  ltac:(discriminate) ltac:(discriminate) eq_refl eq_refl)).
Defined.

Lemma remove_spaces_trim s : remove_spaces (trim s) = remove_spaces s.
Proof.
  apply filter_trim. intros c Hc. rewrite Hc. reflexivity.
Qed.

Lemma remove_spaces_trimEnd s : remove_spaces (trimEnd s) = remove_spaces s.
Proof.
  apply filter_trimEnd. intros c Hc. rewrite Hc. reflexivity.
Qed.

Lemma minus_sign_magnitude s :
  is_negative s = false ->
  is_negative (c_minus :: s) = true
  /\ remove_spaces (magnitude (c_minus :: s)) = remove_spaces (magnitude s).
Proof.
  intros Hs. unfold magnitude. rewrite Hs. unfold is_negative.
  rewrite (trim_cons c_minus s is_space_minus). cbn [startsWith].
  rewrite N.eqb_refl. split; [reflexivity|].
  unfold slice_from. cbn [skipn].
  rewrite remove_spaces_trimEnd, remove_spaces_trim. reflexivity.
Qed.

Lemma parse_spec_minus m mode :
  parse_spec true m mode = with_minus (parse_spec false m mode).
Proof.
  unfold parse_spec.
  destruct (is_empty _ && is_empty _); [reflexivity|].
  destruct mode; reflexivity.
Qed.

(** X15 — a "-" put in front of a non-empty text that does not start with
    one (after trimming) puts a "-" in front of the formatted text, under
    any options, and turns the sign of the parsed value to minus, in both
    modes; nothing else changes. *)
Theorem leading_minus s o mode :
  s <> [] -> is_negative s = false ->
  formatIdr (VStr (c_minus :: s)) o = c_minus :: formatIdr (VStr s) o
  /\ parseIdr (VStr (c_minus :: s)) mode = with_minus (parseIdr (VStr s) mode).
Proof.
  intros Hne Hs. destruct (minus_sign_magnitude s Hs) as [Hneg Hm]. split.
  - rewrite (formatIdr_text s o Hne).
    cbn [formatIdr is_empty]. rewrite !format_text_classify, Hneg, Hs.
    rewrite <- (classify_remove_spaces (magnitude (c_minus :: s))), Hm.
    rewrite classify_remove_spaces. reflexivity.
  - rewrite !parseIdr_text_spec, Hneg, Hs.
    rewrite <- (parse_spec_remove_spaces _ (magnitude (c_minus :: s))), Hm.
    rewrite parse_spec_remove_spaces. apply parse_spec_minus.
Qed.

Lemma leading_minus_witness :
  str "Rp 1.050,5" <> [] /\ is_negative (str "Rp 1.050,5") = false /\
  formatIdr (VStr (c_minus :: str "Rp 1.050,5")) default_format
  = c_minus :: formatIdr (VStr (str "Rp 1.050,5")) default_format.
Proof.
  split; [discriminate|]. split; [reflexivity|].
  exact (proj1 (leading_minus (str "Rp 1.050,5") default_format ModeFixed
                  ltac:(discriminate) eq_refl)).
Defined.

(** ** Formatting, then parsing *)

Lemma makeFixed_canon sg I D : makeFixed sg (canon I) D = makeFixed sg I D.
Proof. unfold makeFixed. fold (canon (canon I)) (canon I). rewrite canon_idem. reflexivity. Qed.

Lemma classify_as_parsed m :
  includes c_comma m = true \/ includes c_dot m = false
  \/ thousandPattern (remove_spaces m) = true ->
  fst (classify m) = or_else (keep_digits (before c_comma m)) (str "0")
  /\ dec_digits (snd (classify m)) = keep_digits (after c_comma m).
Proof.
  intros H. rewrite classify_spec.
  destruct (includes c_comma m) eqn:Hc.
  - split; reflexivity.
  - rewrite (before_no_sep _ _ Hc), (after_no_sep _ _ Hc).
    destruct (includes c_dot m) eqn:Hd.
    + destruct (thousandPattern (remove_spaces m)) eqn:Hp.
      * cbn [fst snd dec_digits].
        rewrite <- (dd_keep_digits _ (thousandPattern_dd _ Hp)).
        rewrite keep_digits_remove_spaces. split; reflexivity.
      * destruct H as [H|[H|H]]; discriminate.
    + split; reflexivity.
Qed.

(** X16 — formatting does not change what [parseIdr] reads: for a text
    with a digit that has a comma, or no dot, or dots that pass the
    thousands test, the exact parse of the text formatted under the default
    options is the exact parse of the text itself. *)
Theorem parse_after_format value :
  keep_digits value <> [] ->
  includes c_comma (magnitude value) = true
  \/ includes c_dot (magnitude value) = false
  \/ thousandPattern (remove_spaces (magnitude value)) = true ->
  parseIdr (VStr (formatIdr (VStr value) default_format)) ModeFixed
  = parseIdr (VStr value) ModeFixed.
Proof.
  intros Hk H.
  assert (Hne : value <> []) by (intros ->; apply Hk; reflexivity).
  rewrite (formatIdr_text value _ Hne), formatIdr_text_parse.
  rewrite format_text_classify, finish_default.
  destruct (classify_digits (magnitude value)) as (H1 & H2 & H3).
  rewrite (parse_text_output _ _ _ (canon_idem _) (canon_digits _ H2) H3).
  rewrite makeFixed_canon.
  destruct (classify_as_parsed _ H) as [-> ->].
  rewrite parseIdr_text_spec. unfold parse_spec.
  pose proof (keep_digits_split c_comma (magnitude value) eq_refl) as Hs.
  rewrite keep_digits_magnitude in Hs.
  destruct (keep_digits (before c_comma (magnitude value)));
    destruct (keep_digits (after c_comma (magnitude value)));
    cbn [is_empty andb]; try reflexivity.
  contradiction.
Qed.

Lemma parse_after_format_witness :
  keep_digits (str "Rp 001.234,50") <> [] /\
  (includes c_comma (magnitude (str "Rp 001.234,50")) = true
   \/ includes c_dot (magnitude (str "Rp 001.234,50")) = false
   \/ thousandPattern (remove_spaces (magnitude (str "Rp 001.234,50"))) = true) /\
  parseIdr (VStr (formatIdr (VStr (str "Rp 001.234,50")) default_format))
    ModeFixed
  = parseIdr (VStr (str "Rp 001.234,50")) ModeFixed.
Proof.
  split; [discriminate|]. split; [left; reflexivity|].
  exact (parse_after_format (str "Rp 001.234,50") ltac:(discriminate)
           (or_introl eq_refl)).
Defined.

(** ** The canonical string is not an input of parseIdr *)

(** X17 — [parseIdr] applied to the canonical string of an exact value
    (with "." as decimal point) keeps the sign and the units but returns
    the scale 0: the point is removed like any dot. *)
Theorem parseIdr_of_toString sg I D :
  all_digits I = true ->
  parseIdr (VStr (FixedIdr_toString (makeFixed sg I D))) ModeFixed
  = PFixed (mkFixed sg (units (makeFixed sg I D)) 0).
Proof.
  intros HI.
  pose proof (canon_idem I) as Hcan.
  pose proof (canon_digits I HI) as Hc.
  pose proof (keep_digits_digits D) as HD.
  unfold makeFixed. fold (canon I). cbn [units].
  rewrite (FixedIdr_toString_digits sg (canon I) (keep_digits D) Hcan Hc HD).
  set (c := canon I) in *. set (kD := keep_digits D) in *.
  set (rest := if is_empty kD then [] else c_dot :: kD).
  assert (Hrest : no_space rest = true).
  { unfold rest. destruct kD as [|d ds]; [reflexivity|].
    cbn [is_empty]. change (c_dot :: d :: ds) with ([c_dot] ++ d :: ds).
    rewrite no_space_app, (digits_no_space _ HD). reflexivity. }
  destruct (canonical_no_space_head c rest Hcan Hc Hrest) as [Hns Hhead].
  rewrite parseIdr_text_spec, minus_if_sign.
  set (neg := match sg with SignMinus => true | SignPlus => false end).
  destruct (signed_text neg (c ++ rest) Hns Hhead) as [-> ->].
  assert (Hrd : remove_dots (c ++ rest) = c ++ kD).
  { rewrite remove_dots_app, (remove_dots_digits c Hc). f_equal.
    unfold rest. destruct kD as [|d ds]; [reflexivity|].
    cbn [is_empty]. change (c_dot :: d :: ds) with ([c_dot] ++ d :: ds).
    rewrite remove_dots_app, (remove_dots_digits _ HD). reflexivity. }
  assert (Hcd : all_digits (c ++ kD) = true)
    by (rewrite all_digits_app, Hc, HD; reflexivity).
  assert (Hnc : includes c_comma (c ++ rest) = false).
  { rewrite includes_app, (digits_no_comma c Hc). unfold rest.
    destruct kD as [|d ds]; [reflexivity|]. cbn [is_empty].
    rewrite includes_cons. apply (digits_no_comma _ HD). }
  assert (Hkd : keep_digits (c ++ rest) = c ++ kD).
  { rewrite <- keep_digits_remove_dots, Hrd. apply keep_digits_all, Hcd. }
  unfold parse_spec.
  rewrite (before_no_sep _ _ Hnc), (after_no_sep _ _ Hnc), Hkd.
  assert (Hne : c ++ kD <> []).
  { intros E. apply app_eq_nil in E. destruct E as [E _].
    exact (canon_self_nonempty c Hcan E). }
  rewrite (or_else_nonempty _ _ Hne).
  destruct (c ++ kD) as [|x r] eqn:Ex; [contradiction|].
  cbn [keep_digits filter is_empty andb]. rewrite <- Ex.
  unfold makeFixed. fold (canon (c ++ kD)). cbn [keep_digits filter length].
  rewrite app_nil_r, BigIntCanon.of_digits_canon.
  unfold neg. destruct sg; reflexivity.
Qed.

Lemma parseIdr_of_toString_witness :
  all_digits (str "1234567") = true /\
  parseIdr (VStr (FixedIdr_toString (makeFixed SignPlus (str "1234567") (str "89"))))
    ModeFixed
  = PFixed (mkFixed SignPlus 123456789 0).
Proof.
  split; [reflexivity|].
  exact (parseIdr_of_toString SignPlus (str "1234567") (str "89") eq_refl).
Defined.

(** ** A count of decimals below zero *)

(** X18 — a negative count of decimals is the count 0: the output is the
    integer rounded half up on the first decimal digit, without a comma. *)
Theorem formatIdr_negative_decimals v o z :
  decimals o = Fixed z -> (z <= 0)%Z ->
  formatIdr v o = formatIdr v (mkFormat (Fixed 0) (padZeros o))
  /\ includes c_comma (formatIdr v o) = false.
Proof.
  intros Hd Hz. destruct (input_text v) as [value|] eqn:Hin.
  - rewrite !(formatIdr_input v value _ Hin).
    rewrite (format_text_fixed_zero value o z Hd Hz).
    rewrite (format_text_fixed_zero value (mkFormat (Fixed 0) (padZeros o)) 0
               eq_refl ltac:(lia)).
    split; [reflexivity|].
    rewrite includes_app, minus_if_no_comma.
    apply groupThousandsStr_no_comma, BigIntFacts.toString_digits.
  - rewrite !(formatIdr_input_none v _ Hin). split; reflexivity.
Qed.

Lemma formatIdr_negative_decimals_witness :
  decimals (mkFormat (Fixed (-2)) false) = Fixed (-2) /\ (-2 <= 0)%Z /\
  formatIdr (VStr (str "1999,5")) (mkFormat (Fixed (-2)) false)
  = formatIdr (VStr (str "1999,5")) (mkFormat (Fixed 0) false).
Proof.
  split; [reflexivity|]. split; [lia|].
  exact (proj1 (formatIdr_negative_decimals (VStr (str "1999,5"))
                  (mkFormat (Fixed (-2)) false) (-2) eq_refl ltac:(lia))).
Defined.

(** ** Texts as they are typed and as they are written *)

Lemma digits_head_no_space I rest :
  I <> [] -> all_digits I = true -> no_space rest = true ->
  no_space (I ++ rest) = true /\
  exists x r, I ++ rest = x :: r /\ is_digit x = true.
Proof.
  intros Hne HI Hr. split.
  - rewrite no_space_app, (digits_no_space I HI), Hr. reflexivity.
  - destruct I as [|x r]; [contradiction|].
    simpl in HI. apply andb_true_iff in HI.
    exists x, (r ++ rest). split; [reflexivity|tauto].
Qed.

(** X19 — decimals as typed: for integer digits I (at least one) and
    decimal digits D, the text "I,D", with or without a leading "-", is
    formatted under the default options as I grouped, then the comma and
    D unchanged, trailing zeros included; without any decimal digit the
    comma goes. *)
Theorem formatIdr_typed_decimals neg I D :
  I <> [] -> all_digits I = true -> all_digits D = true ->
  formatIdr (VStr (minus_if neg ++ I ++ c_comma :: D)) default_format
  = minus_if neg ++ groupThousandsStr I
    ++ (if is_empty D then [] else c_comma :: D).
Proof.
  intros Hne HI HD.
  assert (Hrest : no_space (c_comma :: D) = true).
  { change (c_comma :: D) with ([c_comma] ++ D).
    rewrite no_space_app, (digits_no_space D HD). reflexivity. }
  destruct (digits_head_no_space I (c_comma :: D) Hne HI Hrest) as [Hns Hhead].
  assert (Htext : minus_if neg ++ I ++ c_comma :: D <> []).
  { destruct Hhead as (x & r & -> & _). destruct neg; discriminate. }
  rewrite (formatIdr_text _ _ Htext), format_text_classify.
  destruct (signed_text neg _ Hns Hhead) as [-> ->].
  rewrite classify_spec.
  rewrite includes_app, includes_cons, N.eqb_refl, orb_true_r.
  rewrite before_app, after_app by (apply digits_no_comma, HI).
  cbn [fst snd]. rewrite (keep_digits_all I HI), (keep_digits_all D HD).
  rewrite (or_else_nonempty I _ Hne), finish_default, groupThousandsStr_canon.
  reflexivity.
Qed.

Lemma formatIdr_typed_decimals_witness :
  str "1234" <> [] /\ all_digits (str "1234") = true /\
  all_digits (str "5678") = true /\
  formatIdr (VStr ([] ++ str "1234" ++ c_comma :: str "5678")) default_format
  = [] ++ groupThousandsStr (str "1234") ++ c_comma :: str "5678".
Proof.
  split; [discriminate|]. split; [reflexivity|]. split; [reflexivity|].
  exact (formatIdr_typed_decimals false (str "1234") (str "5678")
           ltac:(discriminate) eq_refl eq_refl).
Defined.

(** X20 — a formatted text is parsed exactly: for a well grouped integer
    part G and decimal digits D, the exact parse of "G,D" (or of "G"), with
    or without a leading "-", has that sign, the digits of G followed by D
    as units, and the count of digits of D as scale. *)
Theorem parseIdr_formatted_text neg G D :
  well_grouped G -> all_digits D = true ->
  parseIdr (VStr (minus_if neg ++ G
                  ++ (if is_empty D then [] else c_comma :: D))) ModeFixed
  = PFixed (mkFixed (if neg then SignMinus else SignPlus)
              (BigInt.of_digits (remove_dots G ++ D)) (length D)).
Proof.
  intros HG HD.
  destruct (well_grouped_regroup G HG) as (Hcan & Hc & Hgr).
  set (c := remove_dots G) in *. rewrite <- Hgr.
  assert (Hne : minus_if neg ++ groupThousandsStr c
                ++ (if is_empty D then [] else c_comma :: D) <> []).
  { destruct (output_head c D Hcan Hc) as (x & r & Ex & _).
    rewrite Ex. destruct neg; discriminate. }
  destruct (minus_if neg ++ groupThousandsStr c
            ++ (if is_empty D then [] else c_comma :: D)) as [|x0 r0] eqn:Et;
    [contradiction|].
  cbn [parseIdr is_empty]. rewrite <- Et.
  rewrite (parse_text_output neg c D Hcan Hc HD).
  rewrite (makeFixed_digits _ c D HD), Hcan. reflexivity.
Qed.

Lemma parseIdr_formatted_text_witness :
  well_grouped (str "1.234.567") /\ all_digits (str "89") = true /\
  parseIdr (VStr ([c_minus] ++ str "1.234.567" ++ c_comma :: str "89")) ModeFixed
  = PFixed (mkFixed SignMinus (BigInt.of_digits (str "1234567" ++ str "89")) 2).
Proof.
  assert (H : well_grouped (str "1.234.567"))
    by (right; split; reflexivity).
  split; [exact H|]. split; [reflexivity|].
  exact (parseIdr_formatted_text true (str "1.234.567") (str "89") H eq_refl).
Defined.

(** ** When the exact round trip loses the scale *)

(** X21 — when the canonical string of an exactly parsed value, without
    its sign, matches the thousands pattern, formatting the value under the
    default options and parsing the result exactly keeps the sign and the
    units and returns the scale 0. *)
Theorem exact_round_trip_inside_pattern T fx :
  parseIdr (VStr T) ModeFixed = PFixed fx ->
  thousandPattern (FixedIdr_toString (mkFixed SignPlus (units fx) (scale fx)))
  = true ->
  parseIdr (VStr (formatIdr (VFixed fx) default_format)) ModeFixed
  = PFixed (mkFixed (sign fx) (units fx) 0).
Proof.
  intros Hparse Hpat.
  rewrite parseIdr_text_spec in Hparse. unfold parse_spec in Hparse.
  set (I0 := keep_digits (before c_comma (magnitude T))) in *.
  set (D := keep_digits (after c_comma (magnitude T))) in *.
  destruct (is_empty I0 && is_empty D); [discriminate|].
  injection Hparse as <-.
  set (sg := if is_negative T then SignMinus else SignPlus) in *.
  assert (HD : all_digits D = true) by apply keep_digits_digits.
  destruct (or_zero_digits I0 (keep_digits_digits _)) as [HIne HI].
  set (I := or_else I0 (str "0")) in *.
  rewrite (makeFixed_digits sg I D HD) in *.
  cbn [units scale sign] in *.
  pose proof (canon_idem I) as Hcan.
  pose proof (canon_digits I HI) as Hc.
  rewrite (FixedIdr_toString_digits SignPlus (canon I) D Hcan Hc HD) in Hpat.
  cbn [sign_prefix app] in Hpat.
  cbn [formatIdr].
  rewrite (FixedIdr_toString_digits sg (canon I) D Hcan Hc HD).
  rewrite minus_if_sign.
  set (neg := match sg with SignMinus => true | SignPlus => false end).
  set (c := canon I) in *.
  destruct D as [|d ds].
  { cbn [is_empty] in Hpat. rewrite app_nil_r in Hpat.
    rewrite (thousandPattern_digits c Hc) in Hpat. discriminate. }
  cbn [is_empty] in *.
  assert (Hrest : no_space (c_dot :: d :: ds) = true).
  { change (c_dot :: d :: ds) with ([c_dot] ++ d :: ds).
    rewrite no_space_app, (digits_no_space _ HD). reflexivity. }
  destruct (canonical_no_space_head c _ Hcan Hc Hrest) as [Hns Hhead].
  assert (Htext : minus_if neg ++ c ++ c_dot :: d :: ds <> []).
  { destruct Hhead as (x & r & -> & _). destruct neg; discriminate. }
  destruct (minus_if neg ++ c ++ c_dot :: d :: ds) as [|x0 r0] eqn:Et;
    [contradiction|].
  cbn [is_empty]. rewrite <- Et. rewrite formatIdr_text_parse.
  rewrite format_text_classify.
  destruct (signed_text neg _ Hns Hhead) as [-> ->].
  rewrite classify_spec.
  assert (Hcomma : includes c_comma (c ++ c_dot :: d :: ds) = false).
  { rewrite includes_app, includes_cons, (digits_no_comma c Hc).
    rewrite (digits_no_comma _ HD). reflexivity. }
  rewrite Hcomma, includes_app, includes_cons, N.eqb_refl, orb_true_r.
  rewrite (remove_spaces_no_space _ Hns), Hpat.
  cbn [fst snd]. rewrite finish_default. cbn [dec_digits is_empty].
  assert (Hrd : remove_dots (c ++ c_dot :: d :: ds) = c ++ d :: ds).
  { rewrite remove_dots_app, (remove_dots_digits c Hc). f_equal.
    change (c_dot :: d :: ds) with ([c_dot] ++ d :: ds).
    rewrite remove_dots_app, (remove_dots_digits _ HD). reflexivity. }
  rewrite Hrd.
  assert (Hcd : all_digits (c ++ d :: ds) = true)
    by (rewrite all_digits_app, Hc, HD; reflexivity).
  assert (Hne : c ++ d :: ds <> [])
    by (intros E; apply app_eq_nil in E; destruct E; discriminate).
  rewrite (or_else_nonempty _ _ Hne).
  pose proof (parse_text_output neg (canon (c ++ d :: ds)) []
                (canon_idem _) (canon_digits _ Hcd) eq_refl) as Hp.
  cbn [is_empty] in Hp. rewrite Hp.
  rewrite makeFixed_canon, (makeFixed_digits _ _ [] eq_refl).
  rewrite app_nil_r, BigIntCanon.of_digits_canon.
  unfold neg. destruct sg; reflexivity.
Qed.

Lemma exact_round_trip_inside_pattern_witness :
  parseIdr (VStr (str "-000123,040")) ModeFixed
  = PFixed (mkFixed SignMinus 123040 3) /\
  thousandPattern (FixedIdr_toString (mkFixed SignPlus 123040 3)) = true /\
  parseIdr (VStr (formatIdr (VFixed (mkFixed SignMinus 123040 3)) default_format))
    ModeFixed
  = PFixed (mkFixed SignMinus 123040 0).
Proof.
  split; [vm_compute; reflexivity|]. split; [vm_compute; reflexivity|].
  apply (exact_round_trip_inside_pattern (str "-000123,040")
           (mkFixed SignMinus 123040 3)); vm_compute; reflexivity.
Defined.
